(** * bulkmt: batching parser, worker threads and sinks (src/main.cpp)

    A shallow embedding of the program in src/main.cpp:

    - [Parser]: the line-by-line state machine of [Parser::exec] and
      [Parser::publish], parametrised by the state the subscribers act on;
    - [IBulker], [ScreenWritter], [FileWriter]: the sinks, their per-worker
      statistics maps and the round-robin routing;
    - [WorkerThread]: an interleaving semantics of [Worker] (queue, running
      flag, background loop, [stop]);
    - [main]: the wiring done by [main()];
    - [ScreenWritter_write], [FileWriter_write]: the text and the file
      paths the handlers produce.

    C++ [int] values are integers in [INT_MIN, INT_MAX] with the conversions
    written out; [std::string] is [string]; [std::list<std::string>] is
    [list string]; [std::map<Worker*, int>] is a [gmap] keyed by the identity
    of the worker. *)

From Stdlib Require Import ZArith List Lia.
From Stdlib Require DecimalString DecimalZ DecimalPos.
From stdpp Require Import base gmap strings list fin_maps.
Import ListNotations.

Local Open Scope Z_scope.

(* ===================================================================== *)
(** ** Machine integers *)
(* ===================================================================== *)

Definition INT_MIN : Z := - 2 ^ 31.
Definition INT_MAX : Z := 2 ^ 31 - 1.

(** Conversion of an integer value to [int] (32 bits, two's complement). *)
Definition to_int (z : Z) : Z := (z + 2 ^ 31) mod 2 ^ 32 - 2 ^ 31.

(** Conversion of an integer value to [size_t] (64 bits, unsigned). *)
Definition to_size_t (z : Z) : Z := z mod 2 ^ 64.

(** [x++] and [x--] on an [int]. Past [INT_MAX] or [INT_MIN] the C++
    operation is undefined; the model takes the two's-complement result, and
    the statements that depend on a counter bound the number of lines so
    that no counter leaves the range of [int]. *)
Definition int_incr (x : Z) : Z := to_int (x + 1).
Definition int_decr (x : Z) : Z := to_int (x - 1).

(** [x += n] for [int x] and [size_t n]: the sum is taken in [size_t] and
    converted back to [int]. *)
Definition int_add_size_t (x n : Z) : Z := to_int (to_size_t (to_size_t x + n)).

(** [x == n] for [int x] and [size_t n]: [x] is converted to [size_t]. *)
Definition size_t_eq_int (n x : Z) : bool := n =? to_size_t x.

(* ===================================================================== *)
(** ** Bulks *)
(* ===================================================================== *)

(** [using Bulk = std::list<std::string>] *)
Definition Bulk : Type := list string.

(** [commands.size()] *)
Definition Bulk_size (commands : Bulk) : Z := Z.of_nat (length commands).

(* ===================================================================== *)
(** ** Parser *)
(* ===================================================================== *)

Inductive ParsingState : Type := TopLevel | InBlock.

(** The local variables of [Parser::exec]. *)
Record Locals : Type := mkLocals {
  state : ParsingState;
  commands : Bulk;
  depthCounter : Z
}.

Section ParserModel.

(** The state the subscribers read and write: a subscriber is a
    [std::function<void(Bulk)>], here a transformer of [W]. *)
Variable W : Type.

Definition Subscriber : Type := Bulk -> W -> W.

Record Parser : Type := mkParser {
  m_subscribers : list Subscriber;
  m_bulkSize : Z;
  m_lineCount : Z;
  m_commandCount : Z;
  m_blockCount : Z
}.

(** [Parser::Parser(int bulkSize)] *)
Definition Parser_new (bulkSize : Z) : Parser :=
  mkParser [] bulkSize 0 0 0.

(** [Parser::subscribe] *)
Definition subscribe (callback : Subscriber) (p : Parser) : Parser :=
  mkParser (m_subscribers p ++ [callback]) (m_bulkSize p)
           (m_lineCount p) (m_commandCount p) (m_blockCount p).

(** The loop [for (const auto& subscriber : m_subscribers)
    subscriber(commands);] *)
Definition notify (subs : list Subscriber) (commands : Bulk) (w : W) : W :=
  fold_left (fun w' subscriber => subscriber commands w') subs w.

(** [Parser::publish(Bulk &commands)]: returns the parser, the batch as the
    caller sees it afterwards, and the subscribers' state. *)
Definition publish (p : Parser) (commands : Bulk) (w : W)
  : Parser * Bulk * W :=
  if Bulk_size commands =? 0 then (p, commands, w)
  else
    (mkParser (m_subscribers p) (m_bulkSize p) (m_lineCount p)
              (int_add_size_t (m_commandCount p) (Bulk_size commands))
              (int_incr (m_blockCount p)),
     [],
     notify (m_subscribers p) commands w).

Definition Config : Type := (Parser * Locals * W)%type.

(** One iteration of the [for (std::string line; std::getline(...);)] loop
    of [Parser::exec]. *)
Definition exec_line (c : Config) (line : string) : Config :=
  let '(p0, l, w) := c in
  let p := mkParser (m_subscribers p0) (m_bulkSize p0)
                    (int_incr (m_lineCount p0))
                    (m_commandCount p0) (m_blockCount p0) in
  match state l with
  | TopLevel =>
      if negb (String.eqb line "{") then
        let commands1 := commands l ++ [line] in
        if size_t_eq_int (Bulk_size commands1) (m_bulkSize p) then
          let '(p', commands2, w') := publish p commands1 w in
          (p', mkLocals TopLevel commands2 (depthCounter l), w')
        else
          (p, mkLocals TopLevel commands1 (depthCounter l), w)
      else
        let depth1 := int_incr (depthCounter l) in
        let '(p', commands2, w') := publish p (commands l) w in
        (p', mkLocals InBlock commands2 depth1, w')
  | InBlock =>
      if negb (String.eqb line "}") then
        if String.eqb line "{" then
          (p, mkLocals InBlock (commands l) (int_incr (depthCounter l)), w)
        else
          (p, mkLocals InBlock (commands l ++ [line]) (depthCounter l), w)
      else
        let depth1 := int_decr (depthCounter l) in
        if depth1 =? 0 then
          let '(p', commands2, w') := publish p (commands l) w in
          (p', mkLocals TopLevel commands2 depth1, w')
        else
          (p, mkLocals InBlock (commands l) depth1, w)
  end.

(** The locals at the start of [exec]. *)
Definition locals0 : Locals := mkLocals TopLevel [] 0.

(** The whole read loop, on the lines [std::getline] delivers. *)
Definition exec_loop (p : Parser) (input : list string) (w : W) : Config :=
  fold_left exec_line input (p, locals0, w).

(** [Parser::exec]: the loop, then the flush at end of input. *)
Definition exec (p : Parser) (input : list string) (w : W) : Parser * W :=
  let '(p1, l, w1) := exec_loop p input w in
  match state l with
  | TopLevel => let '(p2, _, w2) := publish p1 (commands l) w1 in (p2, w2)
  | InBlock => (p1, w1)
  end.

End ParserModel.

Arguments mkParser {W}.
Arguments m_subscribers {W}.
Arguments m_bulkSize {W}.
Arguments m_lineCount {W}.
Arguments m_commandCount {W}.
Arguments m_blockCount {W}.
Arguments Parser_new {W}.
Arguments subscribe {W}.
Arguments notify {W}.
Arguments publish {W}.
Arguments exec_line {W}.
Arguments exec_loop {W}.
Arguments exec {W}.

(** A subscriber that records every batch it is called with, in order. *)
Definition recorder : Subscriber (list Bulk) := fun b log => log ++ [b].

(** The parser of a run with threshold [bulkSize] and the recording
    subscriber. *)
Definition recording_parser (bulkSize : Z) : Parser (list Bulk) :=
  subscribe recorder (Parser_new bulkSize).

(** The batches published by [exec], in publication order. *)
Definition published (bulkSize : Z) (input : list string) : list Bulk :=
  snd (exec (recording_parser bulkSize) input []).

(** The parser object after [exec]. *)
Definition parser_after (bulkSize : Z) (input : list string)
  : Parser (list Bulk) :=
  fst (exec (recording_parser bulkSize) input []).

(** The batches published by the read loop alone (before the flush at end of
    input), and the locals when the loop ends. *)
Definition published_in_loop (bulkSize : Z) (input : list string) : list Bulk :=
  snd (exec_loop (recording_parser bulkSize) input []).

Definition locals_after_loop (bulkSize : Z) (input : list string) : Locals :=
  snd (fst (exec_loop (recording_parser bulkSize) input [])).

(* ===================================================================== *)
(** ** Worker *)
(* ===================================================================== *)

(** Where the background thread of a [Worker] stands in the loop of
    [Worker::start]. *)
Inductive ThreadPc : Type :=
| Waiting                              (* at [m_condition.wait], lines 56-59 *)
| Handling (local_queue : list Bulk)   (* in the loop of lines 73-74 *)
| Exited.                              (* after the [return] of line 67 *)

(** A [Worker] object together with its thread. [handled] lists the calls
    of [m_workFunction] made so far, in order; [submitted] lists the
    arguments of the [push_back] calls made so far, in the order in which
    they took the lock. *)
Record Worker : Type := mkWorker {
  m_queue : list Bulk;
  m_running : bool;
  thread : ThreadPc;
  handled : list Bulk;
  submitted : list Bulk
}.

(** [Worker::Worker(workFunction)]: [start()] sets [m_running] and spawns
    the thread. [Worker::Worker(Worker &&other)], as [FileWriter] uses it on
    a worker whose queue is still empty, gives the same object. *)
Definition Worker_new : Worker := mkWorker [] true Waiting [] [].

(** [Worker::push_back], by whatever thread calls it. *)
Definition Worker_push_back (commands : Bulk) (wk : Worker) : Worker :=
  mkWorker (m_queue wk ++ [commands]) (m_running wk) (thread wk)
           (handled wk) (submitted wk ++ [commands]).

(** The critical section of [Worker::stop] (lines 82-86) when [m_running]
    holds. *)
Definition Worker_stop_signal (wk : Worker) : Worker :=
  mkWorker (m_queue wk) false (thread wk) (handled wk) (submitted wk).

(** The thread leaves [m_condition.wait] (lines 58-71). It is blocked while
    the queue is empty and [m_running] holds. *)
Definition thread_wake (wk : Worker) : option Worker :=
  match thread wk with
  | Waiting =>
      if negb (m_running wk) then
        Some (mkWorker [] (m_running wk) Exited
                       (handled wk ++ m_queue wk) (submitted wk))
      else
        match m_queue wk with
        | [] => None
        | _ :: _ =>
            Some (mkWorker [] (m_running wk) (Handling (m_queue wk))
                           (handled wk) (submitted wk))
        end
  | _ => None
  end.

(** One iteration of [for (auto& data : local_queue) m_workFunction(data);]
    or, when [local_queue] is exhausted, the jump back to the top of the
    [for (;;)]. *)
Definition thread_handle (wk : Worker) : option Worker :=
  match thread wk with
  | Handling (data :: rest) =>
      Some (mkWorker (m_queue wk) (m_running wk) (Handling rest)
                     (handled wk ++ [data]) (submitted wk))
  | Handling [] =>
      Some (mkWorker (m_queue wk) (m_running wk) Waiting
                     (handled wk) (submitted wk))
  | _ => None
  end.

(** What the thread does from where it stands until it exits, once
    [m_running] is false and nobody submits any more. *)
Definition thread_finish (wk : Worker) : Worker :=
  match thread wk with
  | Waiting =>
      mkWorker [] (m_running wk) Exited
               (handled wk ++ m_queue wk) (submitted wk)
  | Handling local_queue =>
      mkWorker [] (m_running wk) Exited
               (handled wk ++ local_queue ++ m_queue wk) (submitted wk)
  | Exited => wk
  end.

(** [Worker::stop()] as its caller sees it when no other thread submits
    meanwhile: the early return of line 84, or the signal followed by
    [m_thread.join()]. *)
Definition Worker_stop (wk : Worker) : Worker :=
  if negb (m_running wk) then wk
  else thread_finish (Worker_stop_signal wk).

(** *** Interleavings of one worker with its submitters and its owner *)

Module WorkerThread.

(** Where the owner of the worker stands with respect to [stop()]. *)
Inductive StopPc : Type :=
| NotCalled   (* [stop()] has not been called yet *)
| Called      (* inside [stop()], before the lock of line 83 *)
| Joining     (* blocked in [m_thread.join()], line 89 *)
| Returned.   (* [stop()] has returned *)

(** [before_stop] is the value of [submitted] at the moment [stop()] was
    called. *)
Record System : Type := mkSystem {
  worker : Worker;
  stopper : StopPc;
  before_stop : list Bulk
}.

Definition init : System := mkSystem Worker_new NotCalled [].

(** The atomic actions: every access to [m_queue] and [m_running] is made
    with [m_mutex] held, so each critical section is one action.
    [m_condition.wait(lk, pred)] returns only with [pred] true, so a wake-up
    that finds the queue empty and [m_running] set changes nothing and is
    not an action; [notify_all] changes no state, and [Wake] is allowed
    whenever [pred] holds, so every execution of the code is a schedule.
    [stop()] is called by the owner of the worker; a second call finds
    [m_running] false and returns at line 84. *)
Inductive Action : Type :=
| Push (commands : Bulk)   (* a thread runs [push_back(commands)] *)
| StopCall                 (* the owner calls [stop()] *)
| StopSignal               (* the owner runs lines 82-86 *)
| Join                     (* [m_thread.join()] returns *)
| Wake                     (* the worker thread runs lines 58-71 *)
| Handle.                  (* the worker thread runs line 74, or loops *)

Definition step (a : Action) (s : System) : option System :=
  match a with
  | Push commands =>
      Some (mkSystem (Worker_push_back commands (worker s))
                     (stopper s) (before_stop s))
  | StopCall =>
      match stopper s with
      | NotCalled =>
          Some (mkSystem (worker s) Called (submitted (worker s)))
      | _ => None
      end
  | StopSignal =>
      match stopper s with
      | Called =>
          if negb (m_running (worker s)) then
            Some (mkSystem (worker s) Returned (before_stop s))
          else
            Some (mkSystem (Worker_stop_signal (worker s)) Joining
                           (before_stop s))
      | _ => None
      end
  | Join =>
      match stopper s, thread (worker s) with
      | Joining, Exited =>
          Some (mkSystem (worker s) Returned (before_stop s))
      | _, _ => None
      end
  | Wake =>
      match thread_wake (worker s) with
      | Some wk => Some (mkSystem wk (stopper s) (before_stop s))
      | None => None
      end
  | Handle =>
      match thread_handle (worker s) with
      | Some wk => Some (mkSystem wk (stopper s) (before_stop s))
      | None => None
      end
  end.

(** A schedule is a list of actions; [run] fails when an action is not
    enabled. *)
Fixpoint run (schedule : list Action) (s : System) : option System :=
  match schedule with
  | [] => Some s
  | a :: rest =>
      match step a s with
      | Some s' => run rest s'
      | None => None
      end
  end.

Definition reachable (s : System) : Prop :=
  exists schedule, run schedule init = Some s.

(** The batches the thread has taken from the queue and not handled yet. *)
Definition local_queue_of (pc : ThreadPc) : list Bulk :=
  match pc with
  | Handling l => l
  | _ => []
  end.

(** The invariant of the interleavings. *)
Definition inv (s : System) : Prop :=
  submitted (worker s)
  = handled (worker s) ++ local_queue_of (thread (worker s))
    ++ m_queue (worker s) /\
  (stopper s <> NotCalled ->
   exists later, submitted (worker s) = before_stop s ++ later) /\
  (m_running (worker s) = false ->
   stopper s = Joining \/ stopper s = Returned) /\
  (stopper s = NotCalled \/ stopper s = Called ->
   m_running (worker s) = true) /\
  (thread (worker s) = Exited ->
   m_running (worker s) = false /\
   exists racing, handled (worker s) = before_stop s ++ racing) /\
  (stopper s = Returned -> thread (worker s) = Exited).

(** [base] has been submitted, and it has been handled if the thread has
    exited. *)
Definition covers (base : list Bulk) (s : System) : Prop :=
  (exists later, submitted (worker s) = base ++ later) /\
  (thread (worker s) = Exited ->
   exists rest, handled (worker s) = base ++ rest).

(** The steps the thread takes from [pc] to its exit once [m_running] is
    false. *)
Definition finish_schedule (pc : ThreadPc) : list Action :=
  match pc with
  | Waiting => [Wake]
  | Handling l => repeat Handle (S (length l)) ++ [Wake]
  | Exited => []
  end.

(** A call of [stop()] during which nobody submits. *)
Definition stop_schedule (s : System) : list Action :=
  [StopCall; StopSignal] ++ finish_schedule (thread (worker s)) ++ [Join].

End WorkerThread.

(* ===================================================================== *)
(** ** Sinks *)
(* ===================================================================== *)

(** The identity of a worker inside its sink, standing for the [Worker *]
    that keys the statistics maps: the position in [m_workers] for
    [FileWriter], and [0] for the one worker of [ScreenWritter]. *)
Definition WorkerId : Type := nat.

Module IBulker.

Record t : Type := mk {
  m_blockCount : gmap nat Z;
  m_commandCount : gmap nat Z
}.

Definition empty : t := mk ∅ ∅.

(** [IBulker::initStats] *)
Definition initStats (worker : WorkerId) (s : t) : t :=
  mk (match m_blockCount s !! worker with
      | None => <[worker := 0]> (m_blockCount s)
      | Some _ => m_blockCount s
      end)
     (match m_commandCount s !! worker with
      | None => <[worker := 0]> (m_commandCount s)
      | Some _ => m_commandCount s
      end).

(** [IBulker::calcStats]; [operator[]] reads 0 for a missing key. *)
Definition calcStats (worker : WorkerId) (commands : Bulk) (s : t) : t :=
  let s1 := initStats worker s in
  mk (<[worker := int_incr (default 0 (m_blockCount s1 !! worker))]>
        (m_blockCount s1))
     (<[worker := int_add_size_t (default 0 (m_commandCount s1 !! worker))
                                 (Bulk_size commands)]>
        (m_commandCount s1)).

End IBulker.

Module ScreenWritter.

Record t : Type := mk {
  stats : IBulker.t;
  m_worker : Worker
}.

Definition the_worker : WorkerId := 0%nat.

(** [ScreenWritter::ScreenWritter()] *)
Definition new : t := mk IBulker.empty Worker_new.

(** [ScreenWritter::push_back] *)
Definition push_back (commands : Bulk) (s : t) : t :=
  mk (IBulker.calcStats the_worker commands (stats s))
     (Worker_push_back commands (m_worker s)).

(** [ScreenWritter::stop] *)
Definition stop (s : t) : t :=
  mk (stats s) (Worker_stop (m_worker s)).

End ScreenWritter.

Module FileWriter.

Record t : Type := mk {
  stats : IBulker.t;
  m_workers : list Worker;
  m_roundRobin : Z
}.

(** [FileWriter::FileWriter(int wrkCount)] *)
Definition new (wrkCount : Z) : t :=
  mk IBulker.empty (replicate (Z.to_nat wrkCount) Worker_new) 0.

(** [m_workers.at(i)] for an [int i]: the index is converted to
    [size_t]; out of range, [at] throws [std::out_of_range] ([None]). *)
Definition at_index (i : Z) : nat := Z.to_nat (to_size_t i).

(** [FileWriter::push_back] *)
Definition push_back (commands : Bulk) (f : t) : option t :=
  let i := at_index (m_roundRobin f) in
  match m_workers f !! i with
  | None => None
  | Some wk =>
      let workers1 := <[i := Worker_push_back commands wk]> (m_workers f) in
      let stats1 := IBulker.calcStats i commands (stats f) in
      let rr := int_incr (m_roundRobin f) in
      Some (mk stats1 workers1
               (if size_t_eq_int (Z.of_nat (length workers1)) rr
                then 0 else rr))
  end.

(** The body of the loop of [FileWriter::stop] for index [i]. *)
Definition stop_one (f : t) (i : nat) : t :=
  match m_workers f !! i with
  | None => f
  | Some wk =>
      mk (IBulker.initStats i (stats f))
         (<[i := Worker_stop wk]> (m_workers f))
         (m_roundRobin f)
  end.

(** [FileWriter::stop] *)
Definition stop (f : t) : t :=
  fold_left stop_one (seq 0 (length (m_workers f))) f.

(** Submitting a sequence of batches, one [push_back] after the other. *)
Fixpoint push_back_all (batches : list Bulk) (f : t) : option t :=
  match batches with
  | [] => Some f
  | b :: rest =>
      match push_back b f with
      | Some f' => push_back_all rest f'
      | None => None
      end
  end.

(** The batches handed to the worker at position [k]. *)
Definition received (f : t) (k : nat) : list Bulk :=
  match m_workers f !! k with
  | Some wk => submitted wk
  | None => []
  end.

(** The positions passed to [m_workers.at(...)] by the successive
    [push_back] calls, up to the first one that throws. *)
Fixpoint routes (batches : list Bulk) (f : t) : list nat :=
  match batches with
  | [] => []
  | b :: rest =>
      match push_back b f with
      | Some f' => at_index (m_roundRobin f) :: routes rest f'
      | None => []
      end
  end.

End FileWriter.

(* ===================================================================== *)
(** ** main *)
(* ===================================================================== *)

(** The two sinks the subscribers of [main] act on; [None] once a
    subscriber has thrown. *)
Definition Sinks : Type := option (ScreenWritter.t * FileWriter.t).

(** [std::bind(&ScreenWritter::push_back, &screenWritter, _1)] *)
Definition screen_subscriber : Subscriber Sinks := fun commands w =>
  match w with
  | Some (s, f) => Some (ScreenWritter.push_back commands s, f)
  | None => None
  end.

(** [std::bind(&FileWriter::push_back, &fileWriter, _1)] *)
Definition file_subscriber : Subscriber Sinks := fun commands w =>
  match w with
  | Some (s, f) =>
      match FileWriter.push_back commands f with
      | Some f' => Some (s, f')
      | None => None
      end
  | None => None
  end.

(** [main]: [arg] is what [strtol] returns for [argv[1]] when one argument
    is given; the result is the parser and the sinks when the statistics are
    printed. *)
Definition main (arg : option Z) (input : list string)
  : option (Parser Sinks * ScreenWritter.t * FileWriter.t) :=
  let bulkCount := match arg with Some n => to_int n | None => 5 end in
  let parser :=
    subscribe file_subscriber
      (subscribe screen_subscriber (Parser_new bulkCount)) in
  let '(parser', sinks) :=
    exec parser input (Some (ScreenWritter.new, FileWriter.new 2)) in
  match sinks with
  | Some (screenWritter, fileWriter) =>
      Some (parser', ScreenWritter.stop screenWritter,
            FileWriter.stop fileWriter)
  | None => None
  end.

(* ===================================================================== *)
(** ** Quantities the properties are stated with *)
(* ===================================================================== *)

(** The sum of the sizes of a sequence of batches. *)
Definition total_size (batches : list Bulk) : Z :=
  fold_right (fun b acc => Bulk_size b + acc) 0 batches.

(** [ceil(n / d)] for [0 <= n] and [0 < d]. *)
Definition ceil_div (n d : Z) : Z := (n + d - 1) / d.

(** The number of lines that are not the empty string. *)
Definition nonEmptyLineCount (input : list string) : Z :=
  Z.of_nat (length (filter (fun line => negb (String.eqb line "")) input)).

(** A line that is a block delimiter. *)
Definition is_delimiter (line : string) : bool :=
  String.eqb line "{" || String.eqb line "}".

(** Feeding the batches of a log to a list of subscribers, one publication
    after the other. *)
Definition replay {W : Type} (subs : list (Subscriber W)) (log : list Bulk)
    (w : W) : W :=
  fold_left (fun w' b => notify subs b w') log w.

(** What the counters of a parser say about the log of the recording
    subscriber. *)
Definition counters_inv (p : Parser (list Bulk)) (log : list Bulk) : Prop :=
  m_subscribers p = [recorder] /\
  m_commandCount p = to_int (total_size log) /\
  m_blockCount p = to_int (Z.of_nat (length log)) /\
  Z.of_nat (length log) <= total_size log /\
  Forall (fun b : Bulk => b <> []) log.

(** The invariant of the read loop after [n] lines, with the recording
    subscriber. *)
Definition loop_inv (bulkSize : Z) (n : nat) (c : Config (list Bulk)) : Prop :=
  let '(p, l, log) := c in
  counters_inv p log /\
  m_bulkSize p = bulkSize /\
  m_lineCount p = to_int (Z.of_nat n) /\
  total_size log + Bulk_size (commands l) <= Z.of_nat n.

(** Two parsers that agree on everything but their subscribers. *)
Definition same_counters {W1 W2 : Type} (p1 : Parser W1) (p2 : Parser W2)
  : Prop :=
  m_bulkSize p1 = m_bulkSize p2 /\
  m_lineCount p1 = m_lineCount p2 /\
  m_commandCount p1 = m_commandCount p2 /\
  m_blockCount p1 = m_blockCount p2.

(** A run with subscribers [subs] started in [w0], against the same run
    with the recording subscriber. *)
Definition sim {W : Type} (subs : list (Subscriber W)) (w0 : W)
    (c : Config W) (c' : Config (list Bulk)) : Prop :=
  let '(p1, l1, w1) := c in
  let '(p2, l2, log) := c' in
  m_subscribers p1 = subs /\ m_subscribers p2 = [recorder] /\
  same_counters p1 p2 /\ l1 = l2 /\ w1 = replay subs log w0.

(** The lines [{ a b { c } d }], one token per line. *)
Definition nested_input : list string :=
  ["{"; "a"; "b"; "{"; "c"; "}"; "d"; "}"]%string.

(** The lines [a b c d e]. *)
Definition five_lines : list string := ["a"; "b"; "c"; "d"; "e"]%string.

(** The parser a program holds after [Parser parser(bulkSize)] and any
    number of [subscribe] calls. *)
Definition fresh_parser {W : Type} (subs : list (Subscriber W)) (bulkSize : Z)
  : Parser W :=
  mkParser subs bulkSize 0 0 0.

(** [x++] on the line counter, the first statement of the loop body. *)
Definition count_line {W : Type} (p : Parser W) : Parser W :=
  mkParser (m_subscribers p) (m_bulkSize p) (int_incr (m_lineCount p))
           (m_commandCount p) (m_blockCount p).

(** The batches of a sequence whose position, counted from [i], is [k]
    modulo [N]. *)
Fixpoint routed_from (i N k : nat) (batches : list Bulk) : list Bulk :=
  match batches with
  | [] => []
  | b :: rest =>
      if Nat.eqb (i mod N)%nat k then b :: routed_from (S i) N k rest
      else routed_from (S i) N k rest
  end.

(** A schedule in which submissions race with [stop()]: [a] is submitted
    before the call, [b] between the call and the signal, [c] after the
    signal and before the final drain, [d] after the drain. *)
Definition racing_schedule : list WorkerThread.Action :=
  [WorkerThread.Push ["a"%string]; WorkerThread.StopCall;
   WorkerThread.Push ["b"%string]; WorkerThread.StopSignal;
   WorkerThread.Push ["c"%string]; WorkerThread.Wake;
   WorkerThread.Push ["d"%string]; WorkerThread.Join].

Definition racing_state : WorkerThread.System :=
  WorkerThread.mkSystem
    (mkWorker [["d"%string]] false Exited
              [["a"]; ["b"]; ["c"]]%string [["a"]; ["b"]; ["c"]; ["d"]]%string)
    WorkerThread.Returned [["a"%string]].

(** A sink's statistics maps hold an entry for the worker [k]. *)
Definition has_entry (st : IBulker.t) (k : WorkerId) : Prop :=
  is_Some (IBulker.m_blockCount st !! k) /\
  is_Some (IBulker.m_commandCount st !! k).

(** Splitting a conjunction into its parts, and closing a part by
    evaluation. *)
Ltac conjuncts := repeat match goal with |- _ /\ _ => split end.
Ltac by_evaluation := vm_compute; first [reflexivity | discriminate].

(** What [publish] hands to the subscribers for a pending batch: nothing
    when it is empty. *)
Definition flush (cmds : Bulk) : list Bulk :=
  match cmds with
  | [] => []
  | _ :: _ => [cmds]
  end.

(** Two configurations of the recording run with the same threshold and
    locals, the log of the first being the log of the second after
    [prefix]. *)
Definition log_shift (prefix : list Bulk) (c1 c2 : Config (list Bulk)) : Prop :=
  m_subscribers (fst (fst c1)) = [recorder] /\
  m_subscribers (fst (fst c2)) = [recorder] /\
  m_bulkSize (fst (fst c1)) = m_bulkSize (fst (fst c2)) /\
  snd (fst c1) = snd (fst c2) /\
  snd c1 = prefix ++ snd c2.

(** The batches submitted by the [Push] actions of a schedule, in order. *)
Fixpoint pushed (schedule : list WorkerThread.Action) : list Bulk :=
  match schedule with
  | [] => []
  | WorkerThread.Push commands :: rest => commands :: pushed rest
  | _ :: rest => pushed rest
  end.

(** The steps of the owner and of the worker thread that are left, from
    [s], until [stop()] has returned: the call and lines 82-86 when they
    have not run yet, the steps of the thread up to its exit, and the
    return of [m_thread.join()]. *)
Definition stop_completion (s : WorkerThread.System)
  : list WorkerThread.Action :=
  match WorkerThread.stopper s with
  | WorkerThread.NotCalled =>
      [WorkerThread.StopCall; WorkerThread.StopSignal]
      ++ WorkerThread.finish_schedule (thread (WorkerThread.worker s))
      ++ [WorkerThread.Join]
  | WorkerThread.Called =>
      [WorkerThread.StopSignal]
      ++ WorkerThread.finish_schedule (thread (WorkerThread.worker s))
      ++ [WorkerThread.Join]
  | WorkerThread.Joining =>
      WorkerThread.finish_schedule (thread (WorkerThread.worker s))
      ++ [WorkerThread.Join]
  | WorkerThread.Returned => []
  end.

(** The schedule that takes the steps [actions] in order while other
    threads submit: the batches of the n-th list of [pushes] are submitted
    just before the n-th step. *)
Fixpoint weave (pushes : list (list Bulk))
               (actions : list WorkerThread.Action)
  : list WorkerThread.Action :=
  match actions with
  | [] => []
  | a :: rest =>
      map WorkerThread.Push (hd [] pushes) ++ a :: weave (tl pushes) rest
  end.

(** The first six actions of [racing_schedule], and the state they lead
    to: the owner is blocked in [m_thread.join()], the thread has made its
    final drain and has exited. *)
Definition joining_schedule : list WorkerThread.Action :=
  [WorkerThread.Push ["a"%string]; WorkerThread.StopCall;
   WorkerThread.Push ["b"%string]; WorkerThread.StopSignal;
   WorkerThread.Push ["c"%string]; WorkerThread.Wake].

Definition joining_state : WorkerThread.System :=
  WorkerThread.mkSystem
    (mkWorker [] false Exited
              [["a"]; ["b"]; ["c"]]%string [["a"]; ["b"]; ["c"]]%string)
    WorkerThread.Joining [["a"%string]].

(** A schedule that leaves the thread in the middle of a taken queue. *)
Definition busy_schedule : list WorkerThread.Action :=
  [WorkerThread.Push ["a"%string]; WorkerThread.Push ["b"%string];
   WorkerThread.Wake; WorkerThread.Handle; WorkerThread.Push ["c"%string]].

Definition busy_state : WorkerThread.System :=
  WorkerThread.mkSystem
    (mkWorker [["c"%string]] true (Handling [["b"%string]])
              [["a"%string]] [["a"]; ["b"]; ["c"]]%string)
    WorkerThread.NotCalled [].

(** The entries the statistics maps hold for a worker that has been handed
    the batches [received]: none before the first batch, then the number
    of batches and the number of commands, kept in [int]s. *)
Definition block_entry (received : list Bulk) : option Z :=
  match received with
  | [] => None
  | _ :: _ => Some (to_int (Z.of_nat (length received)))
  end.

Definition command_entry (received : list Bulk) : option Z :=
  match received with
  | [] => None
  | _ :: _ => Some (to_int (total_size received))
  end.

(** Submitting a sequence of batches to the screen sink. *)
Definition ScreenWritter_push_back_all (batches : list Bulk)
    (s : ScreenWritter.t) : ScreenWritter.t :=
  fold_left (fun s' b => ScreenWritter.push_back b s') batches s.

(** A worker that has only been submitted to: its thread has not taken
    anything yet. *)
Definition untouched (wk : Worker) : Prop :=
  wk = mkWorker (submitted wk) true Waiting [] (submitted wk).

(* ===================================================================== *)
(** ** The handlers: what is written *)
(* ===================================================================== *)

(** [std::to_string] on an integer: its decimal writing. *)
Definition to_string (z : Z) : string :=
  DecimalString.NilZero.string_of_int (Z.to_int z).

(** [std::endl], as the character it writes. *)
Definition endl : string := String (Ascii.ascii_of_nat 10) EmptyString.

(** The loop [for (auto command : commands) out << command << " ";] *)
Fixpoint commands_text (commands : Bulk) : string :=
  match commands with
  | [] => EmptyString
  | command :: rest =>
      String.append command (String.append " " (commands_text rest))
  end.

(** What both handlers write for a batch: ["bulk:"], the commands, each
    followed by a space, and the end of line. *)
Definition bulk_text (commands : Bulk) : string :=
  String.append "bulk:" (String.append (commands_text commands) endl).

(** [ScreenWritter::write]: the line sent to [std::cout], [tid] being the
    writing of [std::this_thread::get_id()]. *)
Definition ScreenWritter_write (tid : string) (commands : Bulk) : string :=
  String.append tid (String.append " " (bulk_text commands)).

(** The path [FileWriter::write] builds under [conflictMutex]. *)
Definition log_path (cwd : string) (result conflictResolverCounter : Z)
  : string :=
  String.append cwd
    (String.append "/bulk"
       (String.append (to_string result)
          (String.append "_"
             (String.append (to_string conflictResolverCounter) ".log")))).

(** [FileWriter::write] with the working directory [cwd], at the time
    [result], on the static counter: the file it opens (path and content)
    and the counter it leaves. *)
Definition FileWriter_write (cwd : string) (result : Z) (commands : Bulk)
    (conflictResolverCounter : Z) : (string * string) * Z :=
  ((log_path cwd result conflictResolverCounter, bulk_text commands),
   int_incr conflictResolverCounter).

(** Successive calls of [FileWriter::write], in the order in which they
    take [conflictMutex], each with its time and its batch: the files they
    open, in order. *)
Fixpoint FileWriter_write_all (cwd : string) (calls : list (Z * Bulk))
    (conflictResolverCounter : Z) : list (string * string) :=
  match calls with
  | [] => []
  | (result, commands) :: rest =>
      let '(file, counter') :=
        FileWriter_write cwd result commands conflictResolverCounter in
      file :: FileWriter_write_all cwd rest counter'
  end.

(** The characters the texts are cut at: [' '], ['_'] and ['.']. *)
Definition space : Ascii.ascii := Ascii.ascii_of_nat 32.
Definition underscore : Ascii.ascii := Ascii.ascii_of_nat 95.
Definition dot : Ascii.ascii := Ascii.ascii_of_nat 46.

(** The character [a] occurs in [s]. *)
Fixpoint occurs (a : Ascii.ascii) (s : string) : bool :=
  match s with
  | EmptyString => false
  | String c rest => Ascii.eqb a c || occurs a rest
  end.

(* ===================================================================== *)
(** * Properties *)
(* ===================================================================== *)

(** ** Machine integers *)

Lemma to_int_id z : INT_MIN <= z <= INT_MAX -> to_int z = z.
Proof.
  unfold INT_MIN, INT_MAX, to_int. intros H.
  rewrite Z.mod_small by lia. lia.
Qed.

Lemma to_size_t_id z : 0 <= z < 2 ^ 64 -> to_size_t z = z.
Proof. unfold to_size_t. intros H. now rewrite Z.mod_small. Qed.

Lemma divide_2_32_2_64 : (2 ^ 32 | 2 ^ 64).
Proof. exists (2 ^ 32). reflexivity. Qed.

Lemma mod32_of_mod64 a b : (a mod 2 ^ 64 + b) mod 2 ^ 32 = (a + b) mod 2 ^ 32.
Proof.
  rewrite <- (Z.mod_mod_divide (a mod 2 ^ 64 + b) (2 ^ 64) (2 ^ 32))
    by apply divide_2_32_2_64.
  rewrite Zplus_mod_idemp_l.
  apply Z.mod_mod_divide, divide_2_32_2_64.
Qed.

Lemma to_int_of_size_t z : to_int (to_size_t z) = to_int z.
Proof.
  unfold to_int, to_size_t. f_equal. apply mod32_of_mod64.
Qed.

Lemma to_int_to_int_add x n : to_int (to_int x + n) = to_int (x + n).
Proof.
  unfold to_int.
  f_equal.
  replace ((x + 2 ^ 31) mod 2 ^ 32 - 2 ^ 31 + n + 2 ^ 31)
    with ((x + 2 ^ 31) mod 2 ^ 32 + n) by lia.
  rewrite Zplus_mod_idemp_l. f_equal. lia.
Qed.

Lemma int_add_size_t_spec x n : int_add_size_t x n = to_int (x + n).
Proof.
  unfold int_add_size_t. rewrite to_int_of_size_t.
  unfold to_int, to_size_t. f_equal.
  replace (x mod 2 ^ 64 + n + 2 ^ 31) with (x mod 2 ^ 64 + (n + 2 ^ 31))
    by lia.
  rewrite mod32_of_mod64. f_equal. lia.
Qed.

(** ** Bulks *)

Lemma Bulk_size_nonneg b : 0 <= Bulk_size b.
Proof. unfold Bulk_size. lia. Qed.

Lemma Bulk_size_zero b : (Bulk_size b =? 0) = true <-> b = [].
Proof.
  unfold Bulk_size. rewrite Z.eqb_eq. destruct b; simpl; split; intros H;
    try reflexivity; try discriminate; lia.
Qed.

Lemma Bulk_size_app b line : Bulk_size (b ++ [line]) = Bulk_size b + 1.
Proof. unfold Bulk_size. rewrite length_app. simpl. lia. Qed.

Lemma total_size_app log b : total_size (log ++ [b]) = total_size log + Bulk_size b.
Proof.
  induction log as [|x log IH]; simpl.
  - lia.
  - rewrite IH. lia.
Qed.

Lemma total_size_nonneg log : 0 <= total_size log.
Proof.
  induction log as [|x log IH]; simpl; [lia|].
  pose proof (Bulk_size_nonneg x). lia.
Qed.

(** ** Parser: publish *)

Lemma notify_recorder b log : notify [recorder] b log = log ++ [b].
Proof. reflexivity. Qed.

Lemma publish_empty {W : Type} (p : Parser W) (w : W) :
  publish p [] w = (p, [], w).
Proof. reflexivity. Qed.

Lemma publish_nonempty {W : Type} (p : Parser W) (cmds : Bulk) (w : W) :
  cmds <> [] ->
  publish p cmds w =
  (mkParser (m_subscribers p) (m_bulkSize p) (m_lineCount p)
            (int_add_size_t (m_commandCount p) (Bulk_size cmds))
            (int_incr (m_blockCount p)),
   [], notify (m_subscribers p) cmds w).
Proof.
  intros Hne. unfold publish.
  destruct (Bulk_size cmds =? 0) eqn:E; [|reflexivity].
  apply Bulk_size_zero in E. contradiction.
Qed.

Lemma publish_clears {W : Type} (p : Parser W) (cmds : Bulk) (w : W) :
  snd (fst (publish p cmds w)) = [].
Proof.
  destruct cmds as [|c cmds]; [reflexivity|].
  rewrite publish_nonempty by discriminate. reflexivity.
Qed.

Lemma publish_counters p cmds log :
  counters_inv p log ->
  counters_inv (fst (fst (publish p cmds log))) (snd (publish p cmds log)) /\
  total_size (snd (publish p cmds log)) = total_size log + Bulk_size cmds /\
  m_lineCount (fst (fst (publish p cmds log))) = m_lineCount p /\
  m_bulkSize (fst (fst (publish p cmds log))) = m_bulkSize p.
Proof.
  intros (Hs & Hc & Hb & Hle & Hne).
  destruct cmds as [|c cmds].
  - rewrite publish_empty. simpl. unfold counters_inv.
    change (Bulk_size []) with 0. repeat split; auto; lia.
  - rewrite publish_nonempty by discriminate. simpl.
    rewrite Hs, notify_recorder, total_size_app.
    unfold counters_inv; simpl.
    rewrite int_add_size_t_spec, Hc, Hb, to_int_to_int_add.
    unfold int_incr. rewrite to_int_to_int_add.
    rewrite total_size_app, length_app. simpl.
    repeat split; auto.
    + f_equal. lia.
    + unfold Bulk_size. simpl. lia.
    + apply Forall_app. split; [assumption|].
      constructor; [discriminate|constructor].
Qed.

(** ** Parser: the read loop *)

Lemma exec_loop_snoc {W : Type} (p : Parser W) input line (w : W) :
  exec_loop p (input ++ [line]) w = exec_line (exec_loop p input w) line.
Proof. unfold exec_loop. rewrite fold_left_app. reflexivity. Qed.

Lemma loop_inv_step bulkSize n c line :
  loop_inv bulkSize n c -> loop_inv bulkSize (S n) (exec_line c line).
Proof.
  destruct c as [[p [st cmds d]] log].
  intros (Hc & Hb & Hl & Hle). simpl in Hle.
  set (p1 := mkParser (m_subscribers p) (m_bulkSize p)
                      (int_incr (m_lineCount p))
                      (m_commandCount p) (m_blockCount p)).
  assert (Hc1 : counters_inv p1 log) by exact Hc.
  assert (Hl1 : m_lineCount p1 = to_int (Z.of_nat (S n))).
  { simpl. rewrite Hl. unfold int_incr. rewrite to_int_to_int_add.
    f_equal. lia. }
  assert (Hpub : forall cmds' st' d',
             total_size log + Bulk_size cmds' <= Z.of_nat (S n) ->
             loop_inv bulkSize (S n)
               (let '(p', commands2, w') := publish p1 cmds' log in
                (p', mkLocals st' commands2 d', w'))).
  { intros cmds' st' d' Hle'.
    pose proof (publish_counters p1 cmds' log Hc1) as (H1 & H2 & H3 & H4).
    pose proof (publish_clears p1 cmds' log) as H5.
    destruct (publish p1 cmds' log) as [[p' c2] w']. simpl in *.
    subst c2. change (Bulk_size []) with 0.
    repeat split; try apply H1; try congruence.
    pose proof (Bulk_size_nonneg cmds'). lia. }
  assert (Hkeep : forall cmds' st' d',
             total_size log + Bulk_size cmds' <= Z.of_nat (S n) ->
             loop_inv bulkSize (S n) (p1, mkLocals st' cmds' d', log)).
  { intros cmds' st' d' Hle'. repeat split; try apply Hc; auto. }
  unfold exec_line. fold p1. cbn [state commands depthCounter].
  destruct st.
  - destruct (negb (line =? "{")%string).
    + destruct (size_t_eq_int _ _).
      * apply Hpub. rewrite Bulk_size_app. lia.
      * apply Hkeep. rewrite Bulk_size_app. lia.
    + apply Hpub. lia.
  - destruct (negb (line =? "}")%string).
    + destruct (line =? "{")%string.
      * apply Hkeep. lia.
      * apply Hkeep. rewrite Bulk_size_app. lia.
    + destruct (int_decr d =? 0).
      * apply Hpub. lia.
      * apply Hkeep. lia.
Qed.

Lemma loop_inv_exec_loop bulkSize input :
  loop_inv bulkSize (length input)
           (exec_loop (recording_parser bulkSize) input []).
Proof.
  induction input as [|line input IH] using rev_ind.
  - unfold loop_inv, counters_inv. simpl. repeat split; auto.
    all: try lia. change (Bulk_size []) with 0. lia.
  - rewrite exec_loop_snoc, length_app. simpl.
    replace (length input + 1)%nat with (S (length input)) by lia.
    apply loop_inv_step. assumption.
Qed.

Lemma exec_counters bulkSize input :
  counters_inv (parser_after bulkSize input) (published bulkSize input) /\
  total_size (published bulkSize input) <= Z.of_nat (length input) /\
  m_lineCount (parser_after bulkSize input) = to_int (Z.of_nat (length input)).
Proof.
  unfold parser_after, published, exec.
  pose proof (loop_inv_exec_loop bulkSize input) as H.
  destruct (exec_loop (recording_parser bulkSize) input []) as [[p l] log].
  destruct H as (Hc & Hb & Hl & Hle).
  destruct (state l).
  - pose proof (publish_counters p (commands l) log Hc) as (H1 & H2 & H3 & H4).
    destruct (publish p (commands l) log) as [[p' c2] w']. simpl in *.
    repeat split; try apply H1; try congruence; lia.
  - simpl. pose proof (Bulk_size_nonneg (commands l)).
    repeat split; try apply Hc; auto; lia.
Qed.

(** ** Parser: what any subscribers see is the recorded log, replayed *)

Lemma replay_snoc {W : Type} (subs : list (Subscriber W)) log b (w : W) :
  replay subs (log ++ [b]) w = notify subs b (replay subs log w).
Proof. unfold replay. rewrite fold_left_app. reflexivity. Qed.

Lemma sim_publish {W : Type} (subs : list (Subscriber W)) (w0 : W)
    p1 p2 l1 l2 w1 log cmds st d :
  sim subs w0 (p1, l1, w1) (p2, l2, log) ->
  sim subs w0
      (let '(p', c, w') := publish p1 cmds w1 in (p', mkLocals st c d, w'))
      (let '(p', c, w') := publish p2 cmds log in (p', mkLocals st c d, w')).
Proof.
  intros (Hs1 & Hs2 & (Hb & Hl & Hc & Hk) & _ & Hw).
  destruct cmds as [|x cmds].
  - rewrite !publish_empty. unfold sim, same_counters. auto 10.
  - rewrite !publish_nonempty by discriminate.
    unfold sim, same_counters. simpl.
    rewrite Hs1, Hs2, Hb, Hl, Hc, Hk, Hw, notify_recorder, replay_snoc.
    auto 10.
Qed.

Lemma sim_bump {W : Type} (subs : list (Subscriber W)) (w0 : W)
    p1 p2 l1 l2 w1 log :
  sim subs w0 (p1, l1, w1) (p2, l2, log) ->
  sim subs w0
      (mkParser (m_subscribers p1) (m_bulkSize p1) (int_incr (m_lineCount p1))
                (m_commandCount p1) (m_blockCount p1), l1, w1)
      (mkParser (m_subscribers p2) (m_bulkSize p2) (int_incr (m_lineCount p2))
                (m_commandCount p2) (m_blockCount p2), l2, log).
Proof.
  intros (Hs1 & Hs2 & (Hb & Hl & Hc & Hk) & Hlo & Hw).
  unfold sim, same_counters. simpl. rewrite Hl. auto 10.
Qed.

Lemma sim_locals {W : Type} (subs : list (Subscriber W)) (w0 : W)
    p1 p2 l1 l2 w1 log l :
  sim subs w0 (p1, l1, w1) (p2, l2, log) ->
  sim subs w0 (p1, l, w1) (p2, l, log).
Proof.
  intros (Hs1 & Hs2 & Hsame & Hlo & Hw). unfold sim. auto 10.
Qed.

Lemma sim_step {W : Type} (subs : list (Subscriber W)) (w0 : W) c c' line :
  sim subs w0 c c' -> sim subs w0 (exec_line c line) (exec_line c' line).
Proof.
  destruct c as [[p1 l1] w1], c' as [[p2 l2] log]. intros H.
  assert (l1 = l2) as <- by apply H.
  apply sim_bump in H.
  unfold exec_line.
  remember (mkParser (m_subscribers p1) (m_bulkSize p1)
                     (int_incr (m_lineCount p1)) (m_commandCount p1)
                     (m_blockCount p1)) as q1.
  remember (mkParser (m_subscribers p2) (m_bulkSize p2)
                     (int_incr (m_lineCount p2)) (m_commandCount p2)
                     (m_blockCount p2)) as q2.
  assert (Hbs : m_bulkSize q1 = m_bulkSize q2) by apply H.
  rewrite <- Hbs.
  destruct (state l1).
  - destruct (negb (line =? "{")%string).
    + destruct (size_t_eq_int _ _).
      * eapply sim_publish; exact H.
      * exact (sim_locals _ _ _ _ _ _ _ _ _ H).
    + eapply sim_publish; exact H.
  - destruct (negb (line =? "}")%string).
    + destruct (line =? "{")%string; exact (sim_locals _ _ _ _ _ _ _ _ _ H).
    + destruct (int_decr (depthCounter l1) =? 0).
      * eapply sim_publish; exact H.
      * exact (sim_locals _ _ _ _ _ _ _ _ _ H).
Qed.

Lemma sim_exec_loop {W : Type} (p : Parser W) input (w : W) :
  sim (m_subscribers p) w
      (exec_loop p input w)
      (exec_loop (mkParser [recorder] (m_bulkSize p) (m_lineCount p)
                           (m_commandCount p) (m_blockCount p)) input []).
Proof.
  induction input as [|line input IH] using rev_ind.
  - unfold sim, same_counters. simpl. auto 10.
  - rewrite !exec_loop_snoc. apply sim_step. exact IH.
Qed.

(** Whatever the subscribers and the state they start from, [exec] leaves
    the counters of the recording run and the subscribers' state obtained
    by replaying the recorded batches. *)
Lemma exec_replay {W : Type} (subs : list (Subscriber W)) bulkSize input
    (w : W) :
  same_counters (fst (exec (fresh_parser subs bulkSize) input w))
                (parser_after bulkSize input) /\
  snd (exec (fresh_parser subs bulkSize) input w)
  = replay subs (published bulkSize input) w.
Proof.
  unfold parser_after, published, exec.
  pose proof (sim_exec_loop (fresh_parser subs bulkSize) input w) as H.
  cbn [fresh_parser m_subscribers m_bulkSize m_lineCount m_commandCount
       m_blockCount] in H.
  change (mkParser [recorder] bulkSize 0 0 0)
    with (recording_parser bulkSize) in H.
  change (mkParser subs bulkSize 0 0 0) with (fresh_parser subs bulkSize) in H.
  destruct (exec_loop (fresh_parser subs bulkSize) input w) as [[p1 l1] w1].
  destruct (exec_loop (recording_parser bulkSize) input []) as [[p2 l2] log].
  assert (l1 = l2) as <- by apply H.
  destruct (state l1) eqn:Hst.
  - pose proof (sim_publish subs w p1 p2 l1 l1 w1 log (commands l1)
                            TopLevel 0 H) as H'.
    destruct (publish p1 (commands l1) w1) as [[p1' c1] w1'].
    destruct (publish p2 (commands l1) log) as [[p2' c2] log'].
    simpl. destruct H' as (_ & _ & Hsame & _ & Hw). auto.
  - simpl. destruct H as (_ & _ & Hsame & _ & Hw). auto.
Qed.

(** ** Parser: the counters *)

(** C2. For every input stream (of at most [INT_MAX] lines, beyond which
    the [int] line counter overflows), whatever the subscribers, the
    parser's [m_commandCount] after [exec()] is the sum of the sizes of the
    batches it published. *)
Theorem C2_commandCount_is_published_total {W : Type}
    (subs : list (Subscriber W)) (bulkSize : Z) (input : list string) (w : W) :
  Z.of_nat (length input) <= INT_MAX ->
  m_commandCount (fst (exec (fresh_parser subs bulkSize) input w))
  = total_size (published bulkSize input).
Proof.
  intros Hlen.
  destruct (exec_replay subs bulkSize input w) as [(_ & _ & Hc & _) _].
  rewrite Hc.
  destruct (exec_counters bulkSize input) as ((_ & Hcc & _) & Hle & _).
  rewrite Hcc. apply to_int_id.
  pose proof (total_size_nonneg (published bulkSize input)).
  unfold INT_MIN, INT_MAX in *. lia.
Qed.

Lemma C2_commandCount_witness :
  Z.of_nat (length five_lines) <= INT_MAX /\
  m_commandCount (fst (exec (fresh_parser [recorder] 3) five_lines []))
  = total_size (published 3 five_lines).
Proof.
  split.
  - vm_compute. discriminate.
  - apply (C2_commandCount_is_published_total [recorder] 3 five_lines []).
    vm_compute. discriminate.
Defined.

(** C6. [publish] on an empty pending batch changes nothing (no counter,
    no subscriber called), in every parser state; hence no published batch
    is empty; and a ["{"] line read in [TopLevel] with nothing pending only
    counts the line, bumps the depth and enters [InBlock]. *)
Theorem C6_publish_empty_noop :
  (forall (W : Type) (p : Parser W) (w : W), publish p [] w = (p, [], w)) /\
  (forall bulkSize input,
      Forall (fun b : Bulk => b <> []) (published bulkSize input)) /\
  (forall (W : Type) (p : Parser W) (d : Z) (w : W),
      exec_line (p, mkLocals TopLevel [] d, w) "{"
      = (count_line p, mkLocals InBlock [] (int_incr d), w)).
Proof.
  split; [|split].
  - intros W p w. reflexivity.
  - intros bulkSize input.
    destruct (exec_counters bulkSize input) as ((_ & _ & _ & _ & Hne) & _).
    exact Hne.
  - intros W p d w. reflexivity.
Qed.

(** ** Parser: the two runs of the specification *)

(** C3. On the lines [{ a b { c } d }] and for any threshold, exactly one
    batch is published, [a b c d]: nothing is published before the eighth
    line, the inner ["{"] and ["}"] only move the depth counter (1 1 1 2 2 1
    1 0 after the successive lines) and never enter the pending batch, and
    the batch goes out on the line that brings the depth back to 0. *)
Theorem C3_nested_block_one_batch (bulkSize : Z) :
  published bulkSize nested_input = [["a"; "b"; "c"; "d"]%string] /\
  Forall (fun k => published_in_loop bulkSize (take k nested_input) = [])
         (seq 0 8) /\
  published_in_loop bulkSize nested_input = [["a"; "b"; "c"; "d"]%string] /\
  map (fun k => depthCounter (locals_after_loop bulkSize (take k nested_input)))
      (seq 1 8) = [1; 1; 1; 2; 2; 1; 1; 0] /\
  map (fun k => commands (locals_after_loop bulkSize (take k nested_input)))
      (seq 1 8)
  = [[]; ["a"]; ["a"; "b"]; ["a"; "b"]; ["a"; "b"; "c"]; ["a"; "b"; "c"];
     ["a"; "b"; "c"; "d"]; []]%string /\
  state (locals_after_loop bulkSize nested_input) = TopLevel /\
  m_blockCount (parser_after bulkSize nested_input) = 1 /\
  m_commandCount (parser_after bulkSize nested_input) = 4.
Proof.
  conjuncts;
    lazymatch goal with
    | |- Forall _ _ => repeat (constructor; [by_evaluation|]); constructor
    | |- _ => by_evaluation
    end.
Qed.

(** C4. With threshold 3 on the lines [a b c d e], two batches are
    published, in this order: [a b c], which goes out when the third line
    fills the pending batch, and [d e], which is still pending in
    [TopLevel] when the loop ends and goes out at end of input. *)
Theorem C4_threshold_then_flush :
  published 3 five_lines = [["a"; "b"; "c"]; ["d"; "e"]]%string /\
  published_in_loop 3 (take 2 five_lines) = [] /\
  published_in_loop 3 (take 3 five_lines) = [["a"; "b"; "c"]%string] /\
  published_in_loop 3 five_lines = [["a"; "b"; "c"]%string] /\
  locals_after_loop 3 five_lines = mkLocals TopLevel ["d"; "e"]%string 0 /\
  m_blockCount (parser_after 3 five_lines) = 2 /\
  m_commandCount (parser_after 3 five_lines) = 5.
Proof.
  conjuncts; by_evaluation.
Qed.

(** ** Parser: an unterminated block *)

Lemma publish_count_line {W : Type} (p : Parser W) cmds (w : W) :
  publish (count_line p) cmds w
  = (count_line (fst (fst (publish p cmds w))),
     snd (fst (publish p cmds w)), snd (publish p cmds w)).
Proof. unfold publish. destruct (Bulk_size cmds =? 0); reflexivity. Qed.

Lemma exec_of_loop {W : Type} (p : Parser W) input (w : W) :
  exec p input w
  = match state (snd (fst (exec_loop p input w))) with
    | TopLevel =>
        (fst (fst (publish (fst (fst (exec_loop p input w)))
                           (commands (snd (fst (exec_loop p input w))))
                           (snd (exec_loop p input w)))),
         snd (publish (fst (fst (exec_loop p input w)))
                      (commands (snd (fst (exec_loop p input w))))
                      (snd (exec_loop p input w))))
    | InBlock => (fst (fst (exec_loop p input w)), snd (exec_loop p input w))
    end.
Proof.
  unfold exec. destruct (exec_loop p input w) as [[p1 l] w1]. simpl.
  destruct (state l); [|reflexivity].
  destruct (publish p1 (commands l) w1) as [[p2 c] w2]. reflexivity.
Qed.

Lemma filter_not_delimiter_snoc body line :
  filter (fun x => negb (is_delimiter x)) (body ++ [line])
  = filter (fun x => negb (is_delimiter x)) body
    ++ (if is_delimiter line then [] else [line]).
Proof.
  rewrite filter_app. f_equal.
  rewrite filter_cons, filter_nil.
  destruct (is_delimiter line); reflexivity.
Qed.

(** When the loop ends in [InBlock], the input is some [pre], the ["{"]
    that opened the block, and the lines [body] of the block; what was
    published and counted is what [exec] publishes and counts on [pre]. *)
Lemma unterminated_split {W : Type} (p : Parser W) input (w : W) :
  state (snd (fst (exec_loop p input w))) = InBlock ->
  exists pre body,
    input = pre ++ "{"%string :: body /\
    state (snd (fst (exec_loop p pre w))) = TopLevel /\
    snd (exec_loop p input w) = snd (exec p pre w) /\
    m_commandCount (fst (fst (exec_loop p input w)))
    = m_commandCount (fst (exec p pre w)) /\
    m_blockCount (fst (fst (exec_loop p input w)))
    = m_blockCount (fst (exec p pre w)) /\
    commands (snd (fst (exec_loop p input w)))
    = filter (fun x => negb (is_delimiter x)) body.
Proof.
  induction input as [|line input IH] using rev_ind.
  - simpl. discriminate.
  - rewrite exec_loop_snoc.
    destruct (exec_loop p input w) as [[p1 [st cmds d]] w1] eqn:Eloop.
    destruct st.
    + (* the block opens on this line *)
      clear IH. unfold exec_line. cbn [state commands depthCounter].
      destruct (line =? "{")%string eqn:Eline; cbn [negb].
      * apply String.eqb_eq in Eline. subst line.
        fold (count_line p1). rewrite publish_count_line.
        intros _. exists input, [].
        rewrite exec_of_loop, Eloop. cbn [fst snd state commands].
        repeat split; try reflexivity.
        cbn. apply publish_clears.
      * destruct (size_t_eq_int _ _).
        -- destruct (publish _ _ _) as [[p' c'] w']. simpl. discriminate.
        -- simpl. discriminate.
    + (* the block was already open *)
      specialize (IH eq_refl).
      destruct IH as (pre & body & Hin & Hpre & Hw & Hc & Hb & Hcmds).
      simpl in Hw, Hc, Hb, Hcmds.
      unfold exec_line. cbn [state commands depthCounter].
      destruct (line =? "}")%string eqn:Eclose; cbn [negb].
      * destruct (int_decr d =? 0).
        -- destruct (publish _ _ _) as [[p' c'] w']. simpl. discriminate.
        -- intros _. exists pre, (body ++ [line]).
           rewrite filter_not_delimiter_snoc. unfold is_delimiter.
           rewrite Eclose, orb_true_r, app_nil_r. simpl.
           repeat split; auto.
           rewrite Hin, <- app_assoc. reflexivity.
      * destruct (line =? "{")%string eqn:Eopen.
        -- intros _. exists pre, (body ++ [line]).
           rewrite filter_not_delimiter_snoc. unfold is_delimiter.
           rewrite Eopen, app_nil_r. simpl.
           repeat split; auto.
           rewrite Hin, <- app_assoc. reflexivity.
        -- intros _. exists pre, (body ++ [line]).
           rewrite filter_not_delimiter_snoc. unfold is_delimiter.
           rewrite Eopen, Eclose. simpl.
           repeat split; auto.
           ++ rewrite Hin, <- app_assoc. reflexivity.
           ++ rewrite Hcmds. reflexivity.
Qed.

(** C5. If the input ends while the parser is in [InBlock], [exec] does
    not publish at end of input: it returns the parser and the subscribers'
    state the loop left. The input is then some [pre], the ["{"] that
    opened the block and the lines [body] of the block; the content lines
    of [body] are what is pending and dropped, and the subscribers' state,
    [m_commandCount] and [m_blockCount] are those of a run on [pre] alone:
    no batch, no counter change and no subscriber call comes from the
    block. *)
Theorem C5_unterminated_block_not_published {W : Type}
    (p : Parser W) (input : list string) (w : W) :
  state (snd (fst (exec_loop p input w))) = InBlock ->
  exec p input w = (fst (fst (exec_loop p input w)), snd (exec_loop p input w))
  /\
  exists pre body,
    input = pre ++ "{"%string :: body /\
    state (snd (fst (exec_loop p pre w))) = TopLevel /\
    commands (snd (fst (exec_loop p input w)))
    = filter (fun x => negb (is_delimiter x)) body /\
    snd (exec p input w) = snd (exec p pre w) /\
    m_commandCount (fst (exec p input w))
    = m_commandCount (fst (exec p pre w)) /\
    m_blockCount (fst (exec p input w)) = m_blockCount (fst (exec p pre w)).
Proof.
  intros Hst.
  assert (Hexec : exec p input w
                  = (fst (fst (exec_loop p input w)),
                     snd (exec_loop p input w))).
  { rewrite exec_of_loop, Hst. reflexivity. }
  split; [exact Hexec|].
  destruct (unterminated_split p input w Hst)
    as (pre & body & Hin & Hpre & Hw & Hc & Hb & Hcmds).
  exists pre, body. rewrite Hexec. simpl. auto 10.
Qed.

Lemma C5_unterminated_block_witness :
  state (snd (fst (exec_loop (recording_parser 3)
                             ["x"; "{"; "a"; "b"]%string []))) = InBlock /\
  published 3 ["x"; "{"; "a"; "b"]%string = [["x"%string]] /\
  exists pre body,
    ["x"; "{"; "a"; "b"]%string = pre ++ "{"%string :: body /\
    commands (snd (fst (exec_loop (recording_parser 3)
                                  ["x"; "{"; "a"; "b"]%string [])))
    = filter (fun x => negb (is_delimiter x)) body /\
    published 3 ["x"; "{"; "a"; "b"]%string = published 3 pre.
Proof.
  split; [reflexivity|]. split; [reflexivity|].
  destruct (C5_unterminated_block_not_published
              (recording_parser 3) ["x"; "{"; "a"; "b"]%string [] eq_refl)
    as (_ & pre & body & Hin & _ & Hcmds & Hw & _).
  exists pre, body. auto.
Defined.

(** ** Parser: input without blocks *)

Lemma ceil_div_spec n d :
  0 <= n -> 0 < d ->
  ceil_div n d = n / d + (if n mod d =? 0 then 0 else 1).
Proof.
  intros Hn Hd. unfold ceil_div.
  pose proof (Z.div_mod n d ltac:(lia)) as Hdm.
  pose proof (Z.mod_pos_bound n d Hd) as Hr.
  destruct (n mod d =? 0) eqn:E.
  - apply Z.eqb_eq in E. symmetry.
    apply (Z.div_unique (n + d - 1) d (n / d + 0) (d - 1)); lia.
  - apply Z.eqb_neq in E. symmetry.
    apply (Z.div_unique (n + d - 1) d (n / d + 1) (n mod d - 1)); lia.
Qed.

Lemma div_mod_succ n d :
  0 <= n -> 0 < d ->
  (n mod d + 1 = d -> (n + 1) / d = n / d + 1 /\ (n + 1) mod d = 0) /\
  (n mod d + 1 <> d -> (n + 1) / d = n / d /\ (n + 1) mod d = n mod d + 1).
Proof.
  intros Hn Hd.
  pose proof (Z.div_mod n d ltac:(lia)) as Hdm.
  pose proof (Z.mod_pos_bound n d Hd) as Hr.
  split; intros H; split; symmetry.
  - apply (Z.div_unique (n + 1) d (n / d + 1) 0); lia.
  - apply (Z.mod_unique (n + 1) d (n / d + 1) 0); lia.
  - apply (Z.div_unique (n + 1) d (n / d) (n mod d + 1)); lia.
  - apply (Z.mod_unique (n + 1) d (n / d) (n mod d + 1)); lia.
Qed.

(** Without ["{"] lines the parser stays in [TopLevel], has published
    [n / bulkSize] batches after [n] lines and holds [n mod bulkSize]
    pending lines. *)
Lemma no_open_loop bulkSize input :
  0 < bulkSize < 2 ^ 64 ->
  Forall (fun line => String.eqb line "{" = false) input ->
  state (locals_after_loop bulkSize input) = TopLevel /\
  Z.of_nat (length (published_in_loop bulkSize input))
  = Z.of_nat (length input) / bulkSize /\
  Bulk_size (commands (locals_after_loop bulkSize input))
  = Z.of_nat (length input) mod bulkSize.
Proof.
  intros Hb. unfold locals_after_loop, published_in_loop.
  induction input as [|line input IH] using rev_ind; intros Hno.
  - simpl. rewrite Z.div_0_l, Z.mod_0_l by lia. auto.
  - apply Forall_app in Hno. destruct Hno as [Hno Hline].
    inversion Hline as [|? ? Hl _]; subst.
    specialize (IH Hno).
    pose proof (loop_inv_exec_loop bulkSize input) as Hinv.
    rewrite exec_loop_snoc, length_app. simpl length.
    destruct (exec_loop (recording_parser bulkSize) input [])
      as [[p [st cmds d]] log].
    simpl in IH. destruct IH as (-> & Hlen & Hsz).
    destruct Hinv as ((Hsubs & _) & Hbs & _).
    pose proof (div_mod_succ (Z.of_nat (length input)) bulkSize
                  ltac:(lia) ltac:(lia)) as [Hfull Hpart].
    replace (Z.of_nat (length input + 1)) with (Z.of_nat (length input) + 1)
      by lia.
    unfold exec_line. cbn [state commands depthCounter m_bulkSize].
    rewrite Hl. cbn [negb].
    unfold size_t_eq_int. rewrite Hbs, to_size_t_id by lia.
    rewrite Bulk_size_app, Hsz.
    destruct (Z.of_nat (length input) mod bulkSize + 1 =? bulkSize) eqn:E.
    + apply Z.eqb_eq in E. destruct (Hfull E) as [Hq Hr].
      rewrite publish_nonempty by (destruct cmds; discriminate).
      cbn [fst snd state commands m_subscribers].
      rewrite Hsubs, notify_recorder, length_app. simpl length.
      change (Bulk_size []) with 0.
      repeat split; try lia.
    + apply Z.eqb_neq in E. destruct (Hpart E) as [Hq Hr].
      cbn [fst snd state commands]. rewrite Bulk_size_app.
      repeat split; lia.
Qed.

Lemma no_delimiter_no_open input :
  forallb (fun line => negb (is_delimiter line)) input = true ->
  Forall (fun line => String.eqb line "{" = false) input.
Proof.
  intros H. apply Forall_forall. intros line Hin.
  pose proof (proj1 (forallb_forall _ _) H line) as Hl.
  apply list_elem_of_In in Hin. specialize (Hl Hin).
  unfold is_delimiter in Hl.
  destruct (line =? "{")%string; [discriminate|reflexivity].
Qed.

Lemma no_empty_line_count input :
  forallb (fun line => negb (String.eqb line "")) input = true ->
  nonEmptyLineCount input = Z.of_nat (length input).
Proof.
  unfold nonEmptyLineCount. intros H. f_equal. f_equal.
  induction input as [|line input IH]; [reflexivity|].
  simpl in H. apply andb_true_iff in H. destruct H as [Hl H].
  cbn [filter]. unfold filter in *. simpl.
  destruct (decide _) as [_|Hn]; [f_equal; auto|].
  exfalso. apply Hn. rewrite Hl. exact I.
Qed.

Lemma published_length_no_open bulkSize input :
  0 < bulkSize < 2 ^ 64 ->
  Forall (fun line => String.eqb line "{" = false) input ->
  Z.of_nat (length (published bulkSize input))
  = ceil_div (Z.of_nat (length input)) bulkSize.
Proof.
  intros Hb Hno.
  destruct (no_open_loop bulkSize input Hb Hno) as (Hst & Hlen & Hsz).
  pose proof (loop_inv_exec_loop bulkSize input) as Hinv.
  rewrite ceil_div_spec by lia.
  unfold published, locals_after_loop, published_in_loop in *.
  rewrite exec_of_loop.
  destruct (exec_loop (recording_parser bulkSize) input [])
    as [[p [st cmds d]] log].
  simpl in Hst, Hlen, Hsz. subst st. cbn [fst snd state commands].
  destruct Hinv as ((Hsubs & _) & _).
  rewrite <- Hsz, <- Hlen.
  destruct cmds as [|c cmds].
  - rewrite publish_empty. simpl. lia.
  - rewrite publish_nonempty by discriminate. cbn [snd].
    rewrite Hsubs, notify_recorder, length_app.
    unfold Bulk_size. simpl. lia.
Qed.

(** C9 as stated fails: with threshold 1, the two lines [""] and ["a"]
    hold no delimiter and one non-empty line, and two batches are
    published ([""] is a command like any other). *)
Lemma C9_counterexample_empty_line :
  forallb (fun line => negb (is_delimiter line)) [""; "a"]%string = true /\
  published 1 [""; "a"]%string = [[""]; ["a"]]%string /\
  m_blockCount (parser_after 1 [""; "a"]%string) = 2 /\
  ceil_div (nonEmptyLineCount [""; "a"]%string) 1 = 1 /\
  m_blockCount (parser_after 1 [""; "a"]%string)
  <> ceil_div (nonEmptyLineCount [""; "a"]%string) 1.
Proof.
  conjuncts; by_evaluation.
Qed.

(** C9, amended. For every input without delimiter lines (of at most
    [INT_MAX] lines) and every positive threshold, whatever the
    subscribers, [m_blockCount] after [exec()] is [ceil(lineCount /
    threshold)], where [lineCount] counts every line read, empty ones
    included; no published batch is empty; when no line is empty this is
    [ceil(nonEmptyLineCount / threshold)]. *)
Theorem C9_blockCount_is_ceil_of_line_count {W : Type}
    (subs : list (Subscriber W)) (bulkSize : Z) (input : list string) (w : W) :
  0 < bulkSize <= INT_MAX ->
  Z.of_nat (length input) <= INT_MAX ->
  forallb (fun line => negb (is_delimiter line)) input = true ->
  m_blockCount (fst (exec (fresh_parser subs bulkSize) input w))
  = ceil_div (Z.of_nat (length input)) bulkSize /\
  Forall (fun b : Bulk => b <> []) (published bulkSize input) /\
  (forallb (fun line => negb (String.eqb line "")) input = true ->
   m_blockCount (fst (exec (fresh_parser subs bulkSize) input w))
   = ceil_div (nonEmptyLineCount input) bulkSize).
Proof.
  intros Hb Hlen Hno.
  assert (Hmain : m_blockCount (fst (exec (fresh_parser subs bulkSize) input w))
                  = ceil_div (Z.of_nat (length input)) bulkSize).
  { destruct (exec_replay subs bulkSize input w) as [(_ & _ & _ & Hk) _].
    rewrite Hk.
    destruct (exec_counters bulkSize input)
      as ((_ & _ & Hbc & Hle & _) & Htot & _).
    rewrite Hbc.
    rewrite <- (published_length_no_open bulkSize input).
    - apply to_int_id. unfold INT_MIN, INT_MAX in *. lia.
    - unfold INT_MAX in Hb. lia.
    - apply no_delimiter_no_open. exact Hno. }
  split; [exact Hmain|]. split.
  - destruct (exec_counters bulkSize input) as ((_ & _ & _ & _ & Hne) & _).
    exact Hne.
  - intros Hnonempty. rewrite no_empty_line_count by exact Hnonempty.
    exact Hmain.
Qed.

Lemma C9_blockCount_witness :
  0 < 3 <= INT_MAX /\
  Z.of_nat (length five_lines) <= INT_MAX /\
  forallb (fun line => negb (is_delimiter line)) five_lines = true /\
  m_blockCount (fst (exec (fresh_parser [recorder] 3) five_lines []))
  = ceil_div (Z.of_nat (length five_lines)) 3.
Proof.
  assert (H1 : 0 < 3 <= INT_MAX) by (unfold INT_MAX; lia).
  assert (H2 : Z.of_nat (length five_lines) <= INT_MAX)
    by (vm_compute; discriminate).
  assert (H3 : forallb (fun line => negb (is_delimiter line)) five_lines = true)
    by reflexivity.
  split; [exact H1|]. split; [exact H2|]. split; [exact H3|].
  exact (proj1 (C9_blockCount_is_ceil_of_line_count
                  [recorder] 3 five_lines [] H1 H2 H3)).
Defined.

(** ** Parser: a threshold that is zero or negative *)

Lemma to_size_t_negative x :
  - 2 ^ 64 <= x < 0 -> to_size_t x = x + 2 ^ 64.
Proof.
  intros H. unfold to_size_t. symmetry.
  apply (Z.mod_unique x (2 ^ 64) (-1) (x + 2 ^ 64)); lia.
Qed.

(** The test [commands.size() == m_bulkSize] fails right after an append
    when the threshold is zero or negative. *)
Lemma threshold_test_fails bulkSize (cmds : Bulk) line :
  INT_MIN <= bulkSize <= 0 ->
  Bulk_size (cmds ++ [line]) <= INT_MAX ->
  size_t_eq_int (Bulk_size (cmds ++ [line])) bulkSize = false.
Proof.
  intros Hb Hsz. unfold size_t_eq_int. apply Z.eqb_neq.
  rewrite Bulk_size_app in *. pose proof (Bulk_size_nonneg cmds).
  unfold INT_MIN, INT_MAX in *.
  destruct (Z.eq_dec bulkSize 0) as [->|Hneg].
  - rewrite to_size_t_id by lia. lia.
  - rewrite to_size_t_negative by lia. lia.
Qed.

(** C10 as stated fails: with threshold 0 on the lines [{ a }], the batch
    [a] is published by the line ["}"] that closes the block, which neither
    opens a block nor ends the input. *)
Lemma C10_counterexample_block_close :
  published_in_loop 0 ["{"; "a"]%string = [] /\
  state (locals_after_loop 0 ["{"; "a"]%string) = InBlock /\
  published_in_loop 0 (["{"; "a"]%string ++ ["}"%string]) = [["a"%string]] /\
  published 0 (["{"; "a"]%string ++ ["}"%string]) = [["a"%string]] /\
  ~ (published_in_loop 0 (["{"; "a"]%string ++ ["}"%string])
     <> published_in_loop 0 ["{"; "a"]%string ->
     state (locals_after_loop 0 ["{"; "a"]%string) = TopLevel
     /\ "}"%string = "{"%string).
Proof.
  conjuncts; try by_evaluation.
  intros H.
  assert (Hneq : published_in_loop 0 (["{"; "a"]%string ++ ["}"%string])
                 <> published_in_loop 0 ["{"; "a"]%string)
    by (vm_compute; discriminate).
  destruct (H Hneq) as [_ Habs]. discriminate Habs.
Qed.

(** C10, amended. For a threshold that is zero or negative (and an input
    of at most [INT_MAX] lines), a line other than ["{"] read in
    [TopLevel] is appended to the pending batch and publishes nothing: the
    size rule never fires. A line publishes during the loop only when it
    is the ["{"] that opens a block or the ["}"] that closes the outermost
    block; the only other publication is the one at end of input in
    [TopLevel]. *)
Theorem C10_nonpositive_threshold_never_fires
    (bulkSize : Z) (pre : list string) (line : string) :
  INT_MIN <= bulkSize <= 0 ->
  Z.of_nat (length (pre ++ [line])) <= INT_MAX ->
  (state (locals_after_loop bulkSize pre) = TopLevel ->
   String.eqb line "{" = false ->
   published_in_loop bulkSize (pre ++ [line]) = published_in_loop bulkSize pre
   /\ locals_after_loop bulkSize (pre ++ [line])
      = mkLocals TopLevel (commands (locals_after_loop bulkSize pre) ++ [line])
                 (depthCounter (locals_after_loop bulkSize pre)))
  /\
  (published_in_loop bulkSize (pre ++ [line]) <> published_in_loop bulkSize pre ->
   (state (locals_after_loop bulkSize pre) = TopLevel /\ line = "{"%string)
   \/
   (state (locals_after_loop bulkSize pre) = InBlock /\ line = "}"%string /\
    state (locals_after_loop bulkSize (pre ++ [line])) = TopLevel))
  /\
  (forall input,
      published bulkSize input <> published_in_loop bulkSize input ->
      state (locals_after_loop bulkSize input) = TopLevel).
Proof.
  intros Hb Hlen.
  unfold locals_after_loop, published_in_loop, published.
  rewrite exec_loop_snoc.
  pose proof (loop_inv_exec_loop bulkSize pre) as Hinv.
  destruct (exec_loop (recording_parser bulkSize) pre [])
    as [[p [st cmds d]] log].
  destruct Hinv as (_ & Hbs & _ & Hle). simpl in Hle.
  assert (Htest : size_t_eq_int (Bulk_size (cmds ++ [line])) (m_bulkSize p)
                  = false).
  { rewrite Hbs. apply threshold_test_fails; [exact Hb|].
    rewrite Bulk_size_app. rewrite length_app in Hlen. simpl in Hlen.
    pose proof (total_size_nonneg log). lia. }
  cbn [fst snd state commands depthCounter].
  split; [|split].
  - intros -> Hl. unfold exec_line.
    cbn [state commands depthCounter m_bulkSize].
    rewrite Hl. cbn [negb]. rewrite Htest. split; reflexivity.
  - unfold exec_line. cbn [state commands depthCounter m_bulkSize].
    destruct st.
    + destruct (line =? "{")%string eqn:Eopen; cbn [negb].
      * intros _. left. apply String.eqb_eq in Eopen. auto.
      * rewrite Htest. cbn [snd]. intros Hneq. congruence.
    + destruct (line =? "}")%string eqn:Eclose; cbn [negb].
      * apply String.eqb_eq in Eclose.
        destruct (int_decr d =? 0).
        -- intros _. right.
           destruct (publish _ _ _) as [[p' c'] w']. auto.
        -- cbn [snd]. intros Hneq. congruence.
      * destruct (line =? "{")%string; cbn [snd]; intros Hneq; congruence.
  - intros input. rewrite exec_of_loop.
    destruct (state (snd (fst (exec_loop (recording_parser bulkSize) input []))));
      [reflexivity|].
    cbn [snd]. intros Hneq. congruence.
Qed.

Lemma C10_nonpositive_threshold_witness :
  INT_MIN <= 0 <= 0 /\
  Z.of_nat (length (["a"; "b"]%string ++ ["c"%string])) <= INT_MAX /\
  state (locals_after_loop 0 ["a"; "b"]%string) = TopLevel /\
  String.eqb "c" "{" = false /\
  published_in_loop 0 (["a"; "b"]%string ++ ["c"%string])
  = published_in_loop 0 ["a"; "b"]%string.
Proof.
  assert (H1 : INT_MIN <= 0 <= 0) by (unfold INT_MIN; lia).
  assert (H2 : Z.of_nat (length (["a"; "b"]%string ++ ["c"%string])) <= INT_MAX)
    by (vm_compute; discriminate).
  split; [exact H1|]. split; [exact H2|].
  split; [reflexivity|]. split; [reflexivity|].
  exact (proj1 (proj1 (C10_nonpositive_threshold_never_fires
                         0 ["a"; "b"]%string "c"%string H1 H2)
                      eq_refl eq_refl)).
Defined.

(** ** FileWriter: round-robin routing *)

Lemma routed_from_snoc i N k bs b :
  routed_from i N k (bs ++ [b])
  = routed_from i N k bs
    ++ (if Nat.eqb ((i + length bs) mod N)%nat k then [b] else []).
Proof.
  revert i. induction bs as [|x bs IH]; intros i; simpl.
  - rewrite Nat.add_0_r. destruct (Nat.eqb _ _); reflexivity.
  - rewrite IH. replace (S i + length bs)%nat with (i + S (length bs))%nat
      by lia.
    destruct (Nat.eqb (i mod N)%nat k); reflexivity.
Qed.

Lemma push_back_all_snoc bs b f :
  FileWriter.push_back_all (bs ++ [b]) f
  = match FileWriter.push_back_all bs f with
    | Some f' => FileWriter.push_back b f'
    | None => None
    end.
Proof.
  revert f. induction bs as [|x bs IH]; intros f; simpl.
  - destruct (FileWriter.push_back b f); reflexivity.
  - destruct (FileWriter.push_back x f); [apply IH|reflexivity].
Qed.

Lemma routes_snoc bs b f :
  FileWriter.routes (bs ++ [b]) f
  = FileWriter.routes bs f
    ++ match FileWriter.push_back_all bs f with
       | Some f' =>
           match FileWriter.push_back b f' with
           | Some _ => [FileWriter.at_index (FileWriter.m_roundRobin f')]
           | None => []
           end
       | None => []
       end.
Proof.
  revert f. induction bs as [|x bs IH]; intros f; simpl.
  - destruct (FileWriter.push_back b f); reflexivity.
  - destruct (FileWriter.push_back x f); [|reflexivity].
    simpl. rewrite IH. reflexivity.
Qed.

(** One [push_back] on a writer whose index is in range. *)
Lemma push_back_in_range b f :
  0 <= FileWriter.m_roundRobin f < Z.of_nat (length (FileWriter.m_workers f)) ->
  Z.of_nat (length (FileWriter.m_workers f)) <= INT_MAX ->
  exists f',
    FileWriter.push_back b f = Some f' /\
    FileWriter.at_index (FileWriter.m_roundRobin f)
    = Z.to_nat (FileWriter.m_roundRobin f) /\
    length (FileWriter.m_workers f') = length (FileWriter.m_workers f) /\
    FileWriter.m_roundRobin f'
    = (if FileWriter.m_roundRobin f + 1
          =? Z.of_nat (length (FileWriter.m_workers f))
       then 0 else FileWriter.m_roundRobin f + 1) /\
    (forall k,
        FileWriter.received f' k
        = FileWriter.received f k
          ++ (if Nat.eqb (Z.to_nat (FileWriter.m_roundRobin f)) k
              then [b] else [])).
Proof.
  intros Hrr Hmax.
  assert (Hat : FileWriter.at_index (FileWriter.m_roundRobin f)
                = Z.to_nat (FileWriter.m_roundRobin f)).
  { unfold FileWriter.at_index. rewrite to_size_t_id; [reflexivity|].
    unfold INT_MAX in Hmax. lia. }
  unfold FileWriter.push_back. rewrite Hat.
  set (i := Z.to_nat (FileWriter.m_roundRobin f)).
  assert (Hi : (i < length (FileWriter.m_workers f))%nat) by (subst i; lia).
  destruct (lookup_lt_is_Some_2 _ _ Hi) as [wk Hwk].
  rewrite Hwk. eexists. split; [reflexivity|].
  cbn [FileWriter.m_workers FileWriter.m_roundRobin].
  rewrite length_insert.
  split; [reflexivity|]. split; [reflexivity|]. split.
  - unfold size_t_eq_int, int_incr.
    rewrite to_int_id by (unfold INT_MIN, INT_MAX in *; lia).
    rewrite to_size_t_id by (unfold INT_MAX in *; lia).
    rewrite Z.eqb_sym. reflexivity.
  - intros k. unfold FileWriter.received.
    cbn [FileWriter.m_workers].
    destruct (Nat.eqb i k) eqn:E.
    + apply Nat.eqb_eq in E. subst k.
      rewrite list_lookup_insert_eq by exact Hi. rewrite Hwk. reflexivity.
    + apply Nat.eqb_neq in E.
      rewrite list_lookup_insert_ne by exact E.
      rewrite app_nil_r. reflexivity.
Qed.

Lemma mod_to_nat (n N : nat) :
  (0 < N)%nat -> Z.to_nat (Z.of_nat n mod Z.of_nat N) = (n mod N)%nat.
Proof.
  intros HN. rewrite <- Nat2Z.inj_mod. apply Nat2Z.id.
Qed.

(** The state of a fresh pool of [wrkCount] workers after a sequence of
    submissions. *)
Lemma push_back_all_new wrkCount bs :
  0 < wrkCount <= INT_MAX ->
  exists f,
    FileWriter.push_back_all bs (FileWriter.new wrkCount) = Some f /\
    length (FileWriter.m_workers f) = Z.to_nat wrkCount /\
    FileWriter.m_roundRobin f = Z.of_nat (length bs) mod wrkCount /\
    FileWriter.routes bs (FileWriter.new wrkCount)
    = map (fun i => (i mod Z.to_nat wrkCount)%nat) (seq 0 (length bs)) /\
    (forall k,
        FileWriter.received f k = routed_from 0 (Z.to_nat wrkCount) k bs).
Proof.
  intros Hw.
  set (N := Z.to_nat wrkCount).
  assert (HN : wrkCount = Z.of_nat N) by (subst N; lia).
  induction bs as [|b bs IH] using rev_ind.
  - exists (FileWriter.new wrkCount). simpl.
    split; [reflexivity|]. split; [apply length_replicate|].
    split; [rewrite Z.mod_0_l by lia; reflexivity|].
    split; [reflexivity|].
    intros k. unfold FileWriter.received, FileWriter.new. simpl.
    destruct (replicate (Z.to_nat wrkCount) Worker_new !! k) as [wk|] eqn:E;
      [|reflexivity].
    apply lookup_replicate in E. destruct E as [-> _]. reflexivity.
  - destruct IH as (f & Hall & Hlen & Hrr & Hroutes & Hrec).
    assert (Hrange : 0 <= FileWriter.m_roundRobin f
                     < Z.of_nat (length (FileWriter.m_workers f))).
    { rewrite Hrr, Hlen. fold N. rewrite <- HN.
      apply Z.mod_pos_bound. lia. }
    assert (Hmax : Z.of_nat (length (FileWriter.m_workers f)) <= INT_MAX).
    { rewrite Hlen. fold N. lia. }
    destruct (push_back_in_range b f Hrange Hmax)
      as (f' & Hpush & Hat & Hlen' & Hrr' & Hrec').
    assert (Hidx : Z.to_nat (FileWriter.m_roundRobin f)
                   = (length bs mod N)%nat).
    { rewrite Hrr, HN. apply mod_to_nat. lia. }
    exists f'.
    rewrite push_back_all_snoc, Hall, routes_snoc, Hall, Hpush, Hroutes.
    rewrite length_app. simpl length.
    split; [reflexivity|]. split; [congruence|]. split; [|split].
    + rewrite Hrr', Hrr, Hlen. fold N. rewrite <- HN.
      replace (Z.of_nat (length bs + 1)) with (Z.of_nat (length bs) + 1)
        by lia.
      pose proof (div_mod_succ (Z.of_nat (length bs)) wrkCount
                    ltac:(lia) ltac:(lia)) as [Hfull Hpart].
      destruct (Z.of_nat (length bs) mod wrkCount + 1 =? wrkCount) eqn:E.
      * apply Z.eqb_eq in E. destruct (Hfull E) as [_ ->]. reflexivity.
      * apply Z.eqb_neq in E. destruct (Hpart E) as [_ ->]. reflexivity.
    + rewrite Nat.add_1_r, seq_S, map_app. simpl.
      rewrite Hat, Hidx. reflexivity.
    + intros k. rewrite Hrec', Hrec, routed_from_snoc, Hidx. reflexivity.
Qed.

(** C7. A [FileWriter] with a pool of [wrkCount] workers hands the [i]-th
    submitted batch (from 0) to the worker at position [i mod wrkCount]:
    no [push_back] throws, the positions used are [0 mod N, 1 mod N, ...],
    each worker has received exactly the batches whose rank is its position
    modulo [N], and [m_roundRobin] stays in [0, N-1]. With 2 workers and 5
    batches the positions are 0 1 0 1 0. *)
Theorem C7_round_robin_routing (wrkCount : Z) (batches : list Bulk) :
  0 < wrkCount <= INT_MAX ->
  (exists f,
      FileWriter.push_back_all batches (FileWriter.new wrkCount) = Some f /\
      (forall k,
          FileWriter.received f k
          = routed_from 0 (Z.to_nat wrkCount) k batches) /\
      FileWriter.m_roundRobin f = Z.of_nat (length batches) mod wrkCount /\
      0 <= FileWriter.m_roundRobin f <= wrkCount - 1) /\
  FileWriter.routes batches (FileWriter.new wrkCount)
  = map (fun i => (i mod Z.to_nat wrkCount)%nat) (seq 0 (length batches)) /\
  (forall b0 b1 b2 b3 b4,
      FileWriter.routes [b0; b1; b2; b3; b4] (FileWriter.new 2)
      = [0; 1; 0; 1; 0]%nat).
Proof.
  intros Hw.
  destruct (push_back_all_new wrkCount batches Hw)
    as (f & Hall & Hlen & Hrr & Hroutes & Hrec).
  split; [|split].
  - exists f. split; [exact Hall|]. split; [exact Hrec|].
    split; [exact Hrr|]. rewrite Hrr.
    pose proof (Z.mod_pos_bound (Z.of_nat (length batches)) wrkCount
                  ltac:(lia)). lia.
  - exact Hroutes.
  - intros b0 b1 b2 b3 b4.
    assert (H2 : 0 < 2 <= INT_MAX) by (unfold INT_MAX; lia).
    destruct (push_back_all_new 2 [b0; b1; b2; b3; b4] H2)
      as (_ & _ & _ & _ & -> & _).
    reflexivity.
Qed.

Lemma C7_round_robin_witness :
  0 < 2 <= INT_MAX /\
  FileWriter.routes [["a"]; ["b"]; ["c"]; ["d"]; ["e"]]%string
                    (FileWriter.new 2)
  = map (fun i => (i mod Z.to_nat 2)%nat) (seq 0 5).
Proof.
  assert (H2 : 0 < 2 <= INT_MAX) by (unfold INT_MAX; lia).
  split; [exact H2|].
  exact (proj1 (proj2 (C7_round_robin_routing
                         2 [["a"]; ["b"]; ["c"]; ["d"]; ["e"]]%string H2))).
Defined.

(** ** Worker: every interleaving keeps the invariant *)

Module WorkerThreadFacts.
Import WorkerThread.

Lemma inv_init : inv init.
Proof.
  unfold inv, init. simpl. conjuncts; try discriminate; auto.
  intros H. exfalso. apply H. reflexivity.
Qed.

Lemma inv_step a s s' : inv s -> step a s = Some s' -> inv s'.
Proof.
  intros (I1 & I2 & I3 & I3' & I4 & I5) Hstep.
  destruct s as [[q r pc h sub] st bs]. simpl in *.
  destruct a; simpl in Hstep.
  - (* Push *)
    injection Hstep as <-. unfold inv. simpl. conjuncts; auto.
    + rewrite I1, <- !app_assoc. reflexivity.
    + intros Hst. destruct (I2 Hst) as [later ->].
      exists (later ++ [commands0]). rewrite app_assoc. reflexivity.
  - (* StopCall *)
    destruct st; try discriminate.
    injection Hstep as <-. unfold inv. simpl.
    assert (Hr : r = true) by auto.
    conjuncts; auto; try congruence.
    + intros _. exists []. rewrite app_nil_r. reflexivity.
    + intros Hpc. destruct (I4 Hpc). congruence.
  - (* StopSignal *)
    destruct st; try discriminate.
    assert (Hr : r = true) by auto. subst r. simpl in Hstep.
    injection Hstep as <-. unfold inv. simpl.
    conjuncts; auto.
    + intros [H|H]; discriminate.
    + intros Hpc. destruct (I4 Hpc). discriminate.
    + discriminate.
  - (* Join *)
    destruct st; try discriminate. destruct pc; try discriminate.
    injection Hstep as <-. unfold inv. simpl.
    conjuncts; auto.
    intros [H|H]; discriminate.
  - (* Wake *)
    unfold thread_wake in Hstep. simpl in Hstep.
    destruct pc; try discriminate. simpl in I1.
    destruct r; simpl in Hstep.
    + destruct q as [|x q]; try discriminate.
      injection Hstep as <-. unfold inv. simpl.
      conjuncts; auto; try discriminate.
      * rewrite app_nil_r. exact I1.
      * intros Hst. specialize (I5 Hst). discriminate.
    + injection Hstep as <-. unfold inv. simpl.
      conjuncts; auto.
      * rewrite !app_nil_r. exact I1.
      * intros _. split; [reflexivity|].
        assert (Hst : st <> NotCalled).
        { destruct (I3 eq_refl) as [-> | ->]; discriminate. }
        destruct (I2 Hst) as [later Hlater]. exists later.
        rewrite <- Hlater. symmetry. exact I1.
  - (* Handle *)
    unfold thread_handle in Hstep. simpl in Hstep.
    destruct pc as [|[|data rest]|]; try discriminate;
      injection Hstep as <-; unfold inv; simpl in *;
      conjuncts; auto; try discriminate.
    + intros Hst. specialize (I5 Hst). discriminate.
    + rewrite I1, <- !app_assoc. reflexivity.
    + intros Hst. specialize (I5 Hst). discriminate.
Qed.

Lemma inv_run schedule s s' : inv s -> run schedule s = Some s' -> inv s'.
Proof.
  revert s. induction schedule as [|a schedule IH]; intros s Hinv Hrun.
  - simpl in Hrun. inversion Hrun; subst. exact Hinv.
  - simpl in Hrun. destruct (step a s) as [s1|] eqn:Hstep; [|discriminate].
    apply (IH s1); [|exact Hrun]. eapply inv_step; eassumption.
Qed.

Lemma inv_reachable s : reachable s -> inv s.
Proof.
  intros [schedule Hrun]. eapply inv_run; [apply inv_init|exact Hrun].
Qed.

(** What was submitted while the thread had not exited is handled when it
    exits. *)
Lemma covers_start s :
  thread (worker s) <> Exited -> covers (submitted (worker s)) s.
Proof.
  intros Hpc. split.
  - exists []. rewrite app_nil_r. reflexivity.
  - intros H. contradiction.
Qed.

Lemma covers_step base a s s' :
  inv s -> covers base s -> step a s = Some s' -> covers base s'.
Proof.
  intros (I1 & _) [[later Hsub] Hexit] Hstep.
  destruct s as [[q r pc h sub] st bs]. simpl in *.
  destruct a; simpl in Hstep.
  - injection Hstep as <-. split; simpl.
    + exists (later ++ [commands0]). rewrite Hsub, app_assoc. reflexivity.
    + exact Hexit.
  - destruct st; try discriminate. injection Hstep as <-.
    split; simpl; eauto.
  - destruct st; try discriminate.
    destruct r; simpl in Hstep; injection Hstep as <-; split; simpl; eauto.
  - destruct st; try discriminate. destruct pc; try discriminate.
    injection Hstep as <-. split; simpl; eauto.
  - unfold thread_wake in Hstep. simpl in Hstep.
    destruct pc; try discriminate. simpl in I1.
    destruct r; simpl in Hstep.
    + destruct q as [|x q]; try discriminate.
      injection Hstep as <-. split; simpl; eauto. discriminate.
    + injection Hstep as <-. split; simpl; eauto.
      intros _. exists later. rewrite <- Hsub. symmetry. exact I1.
  - unfold thread_handle in Hstep. simpl in Hstep.
    destruct pc as [|[|data rest]|]; try discriminate;
      injection Hstep as <-; split; simpl; eauto; discriminate.
Qed.

Lemma covers_run base schedule s s' :
  inv s -> covers base s -> run schedule s = Some s' -> covers base s'.
Proof.
  revert s. induction schedule as [|a schedule IH]; intros s Hinv Hc Hrun.
  - simpl in Hrun. injection Hrun as <-. exact Hc.
  - simpl in Hrun. destruct (step a s) as [s1|] eqn:Hstep; [|discriminate].
    apply (IH s1); [| |exact Hrun].
    + eapply inv_step; eassumption.
    + eapply covers_step; eassumption.
Qed.

Lemma run_app schedule1 schedule2 s :
  run (schedule1 ++ schedule2) s
  = match run schedule1 s with
    | Some s' => run schedule2 s'
    | None => None
    end.
Proof.
  revert s. induction schedule1 as [|a l IH]; intros s; simpl.
  - reflexivity.
  - destruct (step a s); [apply IH|reflexivity].
Qed.

(** With [m_running] false, the thread reaches its exit by its own
    steps, handling what it had taken and then what is queued. *)
Lemma run_finish wk st bs :
  m_running wk = false ->
  run (finish_schedule (thread wk)) (mkSystem wk st bs)
  = Some (mkSystem (thread_finish wk) st bs).
Proof.
  intros Hr. destruct wk as [q r pc h sub]. simpl in Hr. subst r.
  destruct pc as [|l|]; simpl.
  - reflexivity.
  - revert h. induction l as [|data rest IH]; intros h.
    + simpl. unfold thread_finish. simpl. reflexivity.
    + simpl in *. rewrite IH. unfold thread_finish. simpl.
      rewrite <- !app_assoc. reflexivity.
  - reflexivity.
Qed.

Lemma thread_finish_exited wk : thread (thread_finish wk) = Exited.
Proof. destruct wk as [q r [|l|] h sub]; reflexivity. Qed.

Lemma run_stop_signal wk bs :
  m_running wk = true ->
  run [StopCall; StopSignal] (mkSystem wk NotCalled bs)
  = Some (mkSystem (Worker_stop_signal wk) Joining (submitted wk)).
Proof. intros Hr. simpl. rewrite Hr. reflexivity. Qed.

Lemma run_join wk bs :
  thread wk = Exited ->
  run [Join] (mkSystem wk Joining bs) = Some (mkSystem wk Returned bs).
Proof. intros Hpc. simpl. rewrite Hpc. reflexivity. Qed.

(** From any reachable state in which [stop()] has not been called, the
    call returns if the threads are scheduled, and leaves the worker as
    [Worker_stop] says. *)
Lemma stop_returns s :
  reachable s -> stopper s = NotCalled ->
  exists s',
    run (stop_schedule s) s = Some s' /\
    stopper s' = Returned /\
    worker s' = Worker_stop (worker s).
Proof.
  intros Hreach Hst.
  pose proof (inv_reachable s Hreach) as (_ & _ & _ & I3' & _).
  assert (Hr : m_running (worker s) = true) by auto.
  destruct s as [wk st bs]. simpl in Hst, Hr. subst st.
  unfold stop_schedule. cbn [worker].
  rewrite run_app, (run_stop_signal wk bs Hr), run_app.
  change (thread wk) with (thread (Worker_stop_signal wk)).
  rewrite run_finish by reflexivity.
  rewrite run_join by apply thread_finish_exited.
  eexists. split; [reflexivity|]. split; [reflexivity|].
  unfold Worker_stop. rewrite Hr. reflexivity.
Qed.

End WorkerThreadFacts.

(** ** Worker: [stop()] returns, and what is left behind *)

Module WorkerStopFacts.
Import WorkerThread WorkerThreadFacts.

Lemma reachable_run schedule s s' :
  reachable s -> run schedule s = Some s' -> reachable s'.
Proof.
  intros [schedule0 Hrun0] Hrun. exists (schedule0 ++ schedule).
  rewrite run_app, Hrun0. exact Hrun.
Qed.

Lemma reachable_step a s s' :
  reachable s -> step a s = Some s' -> reachable s'.
Proof.
  intros Hreach Hstep. apply (reachable_run [a] s s' Hreach).
  simpl. rewrite Hstep. reflexivity.
Qed.

(** Once lines 82-86 have run, [m_running] is false for good. *)
Lemma signalled_step a s s' :
  (stopper s = Joining \/ stopper s = Returned ->
   m_running (worker s) = false) ->
  step a s = Some s' ->
  stopper s' = Joining \/ stopper s' = Returned ->
  m_running (worker s') = false.
Proof.
  intros H Hstep.
  destruct s as [[q r pc h sub] st bs]. simpl in *.
  destruct a; simpl in Hstep.
  - injection Hstep as <-. simpl. exact H.
  - destruct st; try discriminate. injection Hstep as <-. simpl.
    intros [Hst|Hst]; discriminate.
  - destruct st; try discriminate.
    destruct r; simpl in Hstep; injection Hstep as <-; simpl; auto.
  - destruct st; try discriminate. destruct pc; try discriminate.
    injection Hstep as <-. simpl. intros _. apply H. left. reflexivity.
  - unfold thread_wake in Hstep. simpl in Hstep.
    destruct pc; try discriminate. destruct r; simpl in Hstep.
    + destruct q; try discriminate. injection Hstep as <-. simpl. exact H.
    + injection Hstep as <-. simpl. auto.
  - unfold thread_handle in Hstep. simpl in Hstep.
    destruct pc as [|[|data rest]|]; try discriminate;
      injection Hstep as <-; simpl; exact H.
Qed.

Lemma signalled_run schedule s s' :
  (stopper s = Joining \/ stopper s = Returned ->
   m_running (worker s) = false) ->
  run schedule s = Some s' ->
  stopper s' = Joining \/ stopper s' = Returned ->
  m_running (worker s') = false.
Proof.
  revert s. induction schedule as [|a schedule IH]; intros s H Hrun.
  - simpl in Hrun. injection Hrun as <-. exact H.
  - simpl in Hrun. destruct (step a s) as [s1|] eqn:Hstep; [|discriminate].
    apply (IH s1); [|exact Hrun]. eapply signalled_step; eassumption.
Qed.

Lemma signalled_reachable s :
  reachable s ->
  stopper s = Joining \/ stopper s = Returned ->
  m_running (worker s) = false.
Proof.
  intros [schedule Hrun]. eapply signalled_run; [|exact Hrun].
  simpl. intros [H|H]; discriminate.
Qed.

(** Nothing is left to do exactly when [stop()] has returned. *)
Lemma completion_nil s : stop_completion s = [] -> stopper s = Returned.
Proof.
  unfold stop_completion. destruct (stopper s); try discriminate.
  - destruct (finish_schedule (thread (worker s))); discriminate.
  - reflexivity.
Qed.

(** A submission leaves the remaining steps as they are. *)
Lemma completion_pushes batches s :
  exists s1,
    run (map Push batches) s = Some s1 /\
    stop_completion s1 = stop_completion s.
Proof.
  revert s. induction batches as [|b batches IH]; intros s.
  - exists s. split; reflexivity.
  - cbn [map run step].
    destruct (IH (mkSystem (Worker_push_back b (worker s))
                           (stopper s) (before_stop s)))
      as (s1 & Hrun & Hc).
    exists s1. split; [exact Hrun|]. rewrite Hc. reflexivity.
Qed.

(** The first of the remaining steps is enabled, and leaves the others to
    do. *)
Lemma completion_step s a rest :
  reachable s -> stop_completion s = a :: rest ->
  exists s1, step a s = Some s1 /\ stop_completion s1 = rest.
Proof.
  intros Hreach Hc.
  pose proof (inv_reachable s Hreach) as (_ & _ & _ & I3' & _).
  pose proof (signalled_reachable s Hreach) as Hsig.
  destruct s as [[q r pc h sub] st bs].
  unfold stop_completion in Hc. simpl in *.
  destruct st.
  - injection Hc as <- <-. eexists. split; reflexivity.
  - assert (Hr : r = true) by auto. subst r.
    injection Hc as <- <-. eexists. split; reflexivity.
  - assert (Hr : r = false) by auto. subst r.
    destruct pc as [|[|data l]|]; simpl in Hc; injection Hc as <- <-;
      eexists; split; reflexivity.
  - discriminate.
Qed.

(** Whatever is submitted between the remaining steps, they can all be
    taken, and [stop()] has returned after the last one. *)
Lemma weave_returns n :
  forall s pushes,
    reachable s -> length (stop_completion s) = n ->
    exists s',
      run (weave pushes (stop_completion s)) s = Some s' /\
      stopper s' = Returned.
Proof.
  induction n as [|n IH]; intros s pushes Hreach Hlen.
  - destruct (stop_completion s) as [|a rest] eqn:E; [|discriminate].
    exists s. split; [reflexivity|]. apply completion_nil. exact E.
  - destruct (stop_completion s) as [|a rest] eqn:E; [discriminate|].
    simpl in Hlen. injection Hlen as Hlen. cbn [weave].
    destruct (completion_pushes (hd [] pushes) s) as (s1 & Hrun1 & Hc1).
    assert (Hreach1 : reachable s1) by (eapply reachable_run; eassumption).
    rewrite E in Hc1.
    destruct (completion_step s1 a rest Hreach1 Hc1) as (s2 & Hstep & Hc2).
    assert (Hreach2 : reachable s2) by (eapply reachable_step; eassumption).
    destruct (IH s2 (tl pushes) Hreach2) as (s' & Hrun & Hst).
    { rewrite Hc2. exact Hlen. }
    exists s'. rewrite run_app, Hrun1. cbn [run]. rewrite Hstep.
    rewrite Hc2 in Hrun. split; assumption.
Qed.

(** While the owner is blocked in [m_thread.join()], a step that is not a
    submission is the first of the remaining steps. *)
Lemma joining_step s a s1 :
  reachable s -> stopper s = Joining -> step a s = Some s1 ->
  (exists commands, a = Push commands) \/
  stop_completion s = a :: stop_completion s1.
Proof.
  intros Hreach Hst Hstep.
  assert (Hr : m_running (worker s) = false).
  { apply signalled_reachable; [exact Hreach|left; exact Hst]. }
  destruct s as [[q r pc h sub] st bs]. simpl in Hst, Hr. subst st r.
  destruct a; simpl in Hstep.
  - left. eexists. reflexivity.
  - discriminate.
  - discriminate.
  - destruct pc; try discriminate. injection Hstep as <-.
    right. reflexivity.
  - unfold thread_wake in Hstep. simpl in Hstep.
    destruct pc; try discriminate. injection Hstep as <-.
    right. reflexivity.
  - unfold thread_handle in Hstep. simpl in Hstep.
    destruct pc as [|[|data rest]|]; try discriminate;
      injection Hstep as <-; right; reflexivity.
Qed.

(** After the exit of the thread the handler is not called any more, and
    a submission stays in the queue. *)
Lemma exited_frozen schedule :
  forall s s',
    thread (worker s) = Exited ->
    run schedule s = Some s' ->
    handled (worker s') = handled (worker s) /\
    m_queue (worker s') = m_queue (worker s) ++ pushed schedule.
Proof.
  induction schedule as [|a schedule IH]; intros s s' Hpc Hrun.
  - simpl in Hrun. injection Hrun as <-. simpl. rewrite app_nil_r. auto.
  - simpl in Hrun. destruct (step a s) as [s1|] eqn:Hstep; [|discriminate].
    destruct s as [[q r pc h sub] st bs]. simpl in Hpc. subst pc.
    destruct a; simpl in Hstep.
    + injection Hstep as <-.
      apply IH in Hrun; [|reflexivity].
      destruct Hrun as (H1 & H2). simpl in *.
      rewrite H2, <- app_assoc. auto.
    + destruct st; try discriminate. injection Hstep as <-.
      apply IH in Hrun; [exact Hrun|reflexivity].
    + destruct st; try discriminate.
      destruct r; simpl in Hstep; injection Hstep as <-;
        (apply IH in Hrun; [exact Hrun|reflexivity]).
    + destruct st; try discriminate. injection Hstep as <-.
      apply IH in Hrun; [exact Hrun|reflexivity].
    + discriminate.
    + discriminate.
Qed.

End WorkerStopFacts.

(** C1, as stated, fails for a batch submitted during shutdown after the
    final drain. In [racing_schedule] the batch [d] is submitted while the
    owner is blocked in [m_thread.join()], that is after [stop()] was
    called and before it returns; the thread has already drained the queue
    and exited. When [stop()] returns, [d] has been submitted, it is still
    in [m_queue], the handler has not been called on it, and it will not be
    in any continuation. *)
Lemma C1_counterexample_push_during_join :
  WorkerThread.run joining_schedule WorkerThread.init = Some joining_state /\
  WorkerThread.stopper joining_state = WorkerThread.Joining /\
  WorkerThread.run [WorkerThread.Push ["d"%string]; WorkerThread.Join]
                   joining_state
  = Some racing_state /\
  WorkerThread.stopper racing_state = WorkerThread.Returned /\
  In ["d"%string] (submitted (WorkerThread.worker racing_state)) /\
  m_queue (WorkerThread.worker racing_state) = [["d"%string]] /\
  ~ In ["d"%string] (handled (WorkerThread.worker racing_state)) /\
  (forall schedule s',
      WorkerThread.run schedule racing_state = Some s' ->
      ~ In ["d"%string] (handled (WorkerThread.worker s'))).
Proof.
  assert (Hnot : ~ In ["d"%string]
                      (handled (WorkerThread.worker racing_state))).
  { simpl. intros [H|[H|[H|[]]]]; discriminate. }
  conjuncts; try reflexivity.
  - simpl. auto.
  - exact Hnot.
  - intros schedule s' Hrun.
    destruct (WorkerStopFacts.exited_frozen schedule racing_state s'
                eq_refl Hrun) as [Hhandled _].
    rewrite Hhandled. exact Hnot.
Qed.

(** C1 (amended). In every interleaving of the submitters, the owner and
    the worker thread, from every reachable state [s]:
    - [stop()] returns: whatever is submitted meanwhile ([pushes]), the
      steps of [stop_completion s] can all be taken, [stop()] has returned
      after the last one, and by then the handler has been called on every
      batch submitted up to [s] if the thread had not exited at [s];
    - while the owner is blocked in [m_thread.join()] there is no other way
      to go: a step that is not a submission is the first step of
      [stop_completion s];
    - once [stop()] has returned, the thread has exited; the handler has
      been called on the batches submitted before [stop()] was called and
      then on those that raced with it, each submission once and in
      submission order ([handled] starts with [before_stop] and is a prefix
      of [submitted]); whatever had been submitted at a moment when the
      thread had not exited yet (before the call, before the signal, or
      after the signal and before the final drain) has been handled; the
      submissions not handled are the ones in [m_queue], submitted after
      the final drain, and they are never handled: in every continuation
      [handled] stays as it is and [m_queue] only grows. *)
Theorem C1_no_batch_lost_on_stop (s : WorkerThread.System) :
  WorkerThread.reachable s ->
  (forall pushes,
      exists s',
        WorkerThread.run (weave pushes (stop_completion s)) s = Some s' /\
        WorkerThread.stopper s' = WorkerThread.Returned /\
        (thread (WorkerThread.worker s) <> Exited ->
         exists rest,
           handled (WorkerThread.worker s')
           = submitted (WorkerThread.worker s) ++ rest)) /\
  (WorkerThread.stopper s = WorkerThread.Joining ->
   forall a s1,
     WorkerThread.step a s = Some s1 ->
     (exists commands, a = WorkerThread.Push commands) \/
     stop_completion s = a :: stop_completion s1) /\
  (WorkerThread.stopper s = WorkerThread.Returned ->
   thread (WorkerThread.worker s) = Exited /\
   (exists racing late,
       handled (WorkerThread.worker s)
       = WorkerThread.before_stop s ++ racing /\
       submitted (WorkerThread.worker s)
       = handled (WorkerThread.worker s) ++ late /\
       m_queue (WorkerThread.worker s) = late) /\
   (forall schedule1 schedule2 s1,
       WorkerThread.run schedule1 WorkerThread.init = Some s1 ->
       thread (WorkerThread.worker s1) <> Exited ->
       WorkerThread.run schedule2 s1 = Some s ->
       exists rest,
         handled (WorkerThread.worker s)
         = submitted (WorkerThread.worker s1) ++ rest) /\
   (forall schedule s',
       WorkerThread.run schedule s = Some s' ->
       handled (WorkerThread.worker s') = handled (WorkerThread.worker s) /\
       m_queue (WorkerThread.worker s')
       = m_queue (WorkerThread.worker s) ++ pushed schedule)).
Proof.
  intros Hreach.
  pose proof (WorkerThreadFacts.inv_reachable s Hreach) as Hinv.
  split; [|split].
  - intros pushes.
    destruct (WorkerStopFacts.weave_returns
                (length (stop_completion s)) s pushes Hreach eq_refl)
      as (s' & Hrun & Hst).
    exists s'. split; [exact Hrun|]. split; [exact Hst|].
    intros Hpc.
    assert (Hreach' : WorkerThread.reachable s')
      by (eapply WorkerStopFacts.reachable_run; eassumption).
    pose proof (WorkerThreadFacts.inv_reachable s' Hreach')
      as (_ & _ & _ & _ & _ & I5).
    destruct (WorkerThreadFacts.covers_run
                (submitted (WorkerThread.worker s)) _ s s' Hinv
                (WorkerThreadFacts.covers_start s Hpc) Hrun) as [_ Hexit].
    exact (Hexit (I5 Hst)).
  - intros Hst a s1 Hstep.
    exact (WorkerStopFacts.joining_step s a s1 Hreach Hst Hstep).
  - intros Hst.
    destruct Hinv as (I1 & _ & _ & _ & I4 & I5).
    specialize (I5 Hst). destruct (I4 I5) as [_ [racing Hracing]].
    split; [exact I5|]. split; [|split].
    + exists racing, (m_queue (WorkerThread.worker s)).
      split; [exact Hracing|]. split; [|reflexivity].
      rewrite I1, I5. reflexivity.
    + intros schedule1 schedule2 s1 Hrun1 Hpc Hrun2.
      assert (Hinv1 : WorkerThread.inv s1).
      { apply WorkerThreadFacts.inv_reachable. exists schedule1.
        exact Hrun1. }
      destruct (WorkerThreadFacts.covers_run
                  (submitted (WorkerThread.worker s1)) schedule2 s1 s Hinv1
                  (WorkerThreadFacts.covers_start s1 Hpc) Hrun2)
        as [_ Hexit].
      exact (Hexit I5).
    + intros schedule s' Hrun.
      exact (WorkerStopFacts.exited_frozen schedule s s' I5 Hrun).
Qed.

Lemma C1_no_batch_lost_witness :
  WorkerThread.reachable racing_state /\
  WorkerThread.stopper racing_state = WorkerThread.Returned /\
  thread (WorkerThread.worker racing_state) = Exited /\
  exists racing late,
    handled (WorkerThread.worker racing_state)
    = WorkerThread.before_stop racing_state ++ racing /\
    submitted (WorkerThread.worker racing_state)
    = handled (WorkerThread.worker racing_state) ++ late /\
    m_queue (WorkerThread.worker racing_state) = late.
Proof.
  assert (Hreach : WorkerThread.reachable racing_state)
    by (exists racing_schedule; reflexivity).
  split; [exact Hreach|]. split; [reflexivity|].
  destruct (C1_no_batch_lost_on_stop racing_state Hreach)
    as (_ & _ & Hreturned).
  destruct (Hreturned eq_refl) as (Hexit & Hhandled & _).
  split; [exact Hexit|exact Hhandled].
Defined.

(** ** Sinks: the statistics entries after stop *)

Lemma initStats_adds k st : has_entry (IBulker.initStats k st) k.
Proof.
  unfold has_entry, IBulker.initStats. simpl. split.
  - destruct (IBulker.m_blockCount st !! k) eqn:E.
    + rewrite E. eauto.
    + rewrite lookup_insert_eq. eauto.
  - destruct (IBulker.m_commandCount st !! k) eqn:E.
    + rewrite E. eauto.
    + rewrite lookup_insert_eq. eauto.
Qed.

Lemma initStats_keeps j k st :
  has_entry st k -> has_entry (IBulker.initStats j st) k.
Proof.
  unfold has_entry, IBulker.initStats. simpl. intros [Hb Hc]. split.
  - destruct (IBulker.m_blockCount st !! j); [exact Hb|].
    destruct (decide (j = k)) as [->|Hne].
    + rewrite lookup_insert_eq. eauto.
    + rewrite lookup_insert_ne by exact Hne. exact Hb.
  - destruct (IBulker.m_commandCount st !! j); [exact Hc|].
    destruct (decide (j = k)) as [->|Hne].
    + rewrite lookup_insert_eq. eauto.
    + rewrite lookup_insert_ne by exact Hne. exact Hc.
Qed.

Lemma stop_loop_entries (l : list nat) (f : FileWriter.t) :
  Forall (fun i => (i < length (FileWriter.m_workers f))%nat) l ->
  length (FileWriter.m_workers (fold_left FileWriter.stop_one l f))
  = length (FileWriter.m_workers f) /\
  forall k,
    In k l \/ has_entry (FileWriter.stats f) k ->
    has_entry (FileWriter.stats (fold_left FileWriter.stop_one l f)) k.
Proof.
  revert f. induction l as [|i l IH]; intros f Hl.
  - simpl. split; [reflexivity|]. intros k [[]|H]. exact H.
  - inversion Hl as [|? ? Hi Hl']; subst.
    destruct (lookup_lt_is_Some_2 _ _ Hi) as [wk Hwk].
    assert (Hone : FileWriter.stop_one f i
                   = FileWriter.mk (IBulker.initStats i (FileWriter.stats f))
                       (<[i := Worker_stop wk]> (FileWriter.m_workers f))
                       (FileWriter.m_roundRobin f)).
    { unfold FileWriter.stop_one. rewrite Hwk. reflexivity. }
    simpl fold_left. rewrite Hone.
    destruct (IH (FileWriter.mk (IBulker.initStats i (FileWriter.stats f))
                    (<[i := Worker_stop wk]> (FileWriter.m_workers f))
                    (FileWriter.m_roundRobin f))) as [Hlen Hent].
    { simpl. rewrite length_insert. exact Hl'. }
    simpl in Hlen. rewrite length_insert in Hlen.
    split; [exact Hlen|].
    intros k [[->|Hin]|Hk]; apply Hent; simpl.
    + right. apply initStats_adds.
    + left. exact Hin.
    + right. apply initStats_keeps. exact Hk.
Qed.

(** [FileWriter::stop] leaves an entry for every worker of the pool. *)
Lemma FileWriter_stop_entries (f : FileWriter.t) (k : nat) :
  (k < length (FileWriter.m_workers f))%nat ->
  has_entry (FileWriter.stats (FileWriter.stop f)) k.
Proof.
  intros Hk. unfold FileWriter.stop.
  apply stop_loop_entries.
  - apply Forall_forall. intros i Hi. apply list_elem_of_In, in_seq in Hi. lia.
  - left. apply in_seq. lia.
Qed.

(** [ScreenWritter::stop] does not touch the statistics. *)
Lemma ScreenWritter_stop_stats (s : ScreenWritter.t) :
  ScreenWritter.stats (ScreenWritter.stop s) = ScreenWritter.stats s.
Proof. reflexivity. Qed.

(** A run of [main] in which no batch is published leaves the screen
    sink's maps empty. *)
Lemma main_without_batch arg input :
  published (match arg with Some n => to_int n | None => 5 end) input = [] ->
  exists parser screenWritter fileWriter,
    main arg input = Some (parser, screenWritter, fileWriter) /\
    ScreenWritter.stats screenWritter = IBulker.empty /\
    has_entry (FileWriter.stats fileWriter) 0%nat /\
    has_entry (FileWriter.stats fileWriter) 1%nat.
Proof.
  intros Hpub. unfold main.
  set (bulkCount := match arg with Some n => to_int n | None => 5 end) in *.
  change (subscribe file_subscriber
            (subscribe screen_subscriber (Parser_new bulkCount)))
    with (fresh_parser [screen_subscriber; file_subscriber] bulkCount).
  pose proof (exec_replay [screen_subscriber; file_subscriber] bulkCount input
                (Some (ScreenWritter.new, FileWriter.new 2))) as [_ Hw].
  rewrite Hpub in Hw. simpl in Hw.
  destruct (exec _ input _) as [p w]. simpl in Hw. subst w.
  eexists _, _, _. split; [reflexivity|]. split; [reflexivity|].
  split; apply FileWriter_stop_entries; simpl; lia.
Qed.

(** C8, on the code. On an empty input, [main] stops both sinks and the
    screen sink's maps hold no entry for its worker, while the file sink's
    maps hold a zero entry for each of its two workers:
    [ScreenWritter::stop] lacks the [initStats] call that
    [FileWriter::stop] makes. *)
Theorem C8_screen_stop_leaves_no_entry :
  match main None [] with
  | Some (_, screenWritter, fileWriter) =>
      IBulker.m_blockCount (ScreenWritter.stats screenWritter)
        !! ScreenWritter.the_worker = None /\
      IBulker.m_commandCount (ScreenWritter.stats screenWritter)
        !! ScreenWritter.the_worker = None /\
      ~ has_entry (ScreenWritter.stats screenWritter) ScreenWritter.the_worker /\
      IBulker.m_blockCount (FileWriter.stats fileWriter) !! 0%nat = Some 0 /\
      IBulker.m_commandCount (FileWriter.stats fileWriter) !! 0%nat = Some 0 /\
      IBulker.m_blockCount (FileWriter.stats fileWriter) !! 1%nat = Some 0 /\
      IBulker.m_commandCount (FileWriter.stats fileWriter) !! 1%nat = Some 0
  | None => False
  end.
Proof.
  vm_compute. conjuncts; try reflexivity.
  intros [[x Hx] _]. discriminate Hx.
Qed.

(* ===================================================================== *)
(** * Further properties of the parser *)
(* ===================================================================== *)

Lemma published_flush bulkSize input :
  published bulkSize input
  = published_in_loop bulkSize input
    ++ match state (locals_after_loop bulkSize input) with
       | TopLevel => flush (commands (locals_after_loop bulkSize input))
       | InBlock => []
       end.
Proof.
  unfold published, published_in_loop, locals_after_loop.
  rewrite exec_of_loop.
  pose proof (loop_inv_exec_loop bulkSize input) as Hinv.
  destruct (exec_loop (recording_parser bulkSize) input [])
    as [[p [st cmds d]] log].
  destruct Hinv as ((Hsubs & _) & _). cbn [fst snd state commands].
  destruct st; [|rewrite app_nil_r; reflexivity].
  destruct cmds as [|c cmds].
  - rewrite publish_empty. simpl. rewrite app_nil_r. reflexivity.
  - rewrite publish_nonempty by discriminate. cbn [snd].
    rewrite Hsubs, notify_recorder. reflexivity.
Qed.

(** X1. After [exec()] on an input of at most [INT_MAX] lines, whatever
    the subscribers: [m_lineCount] is the number of lines read (delimiters
    and dropped lines included), [m_blockCount] is the number of batches
    published, and [0 <= m_blockCount <= m_commandCount <= m_lineCount]. *)
Theorem X1_parser_counters {W : Type}
    (subs : list (Subscriber W)) (bulkSize : Z) (input : list string) (w : W) :
  Z.of_nat (length input) <= INT_MAX ->
  m_lineCount (fst (exec (fresh_parser subs bulkSize) input w))
  = Z.of_nat (length input) /\
  m_blockCount (fst (exec (fresh_parser subs bulkSize) input w))
  = Z.of_nat (length (published bulkSize input)) /\
  0 <= m_blockCount (fst (exec (fresh_parser subs bulkSize) input w))
    <= m_commandCount (fst (exec (fresh_parser subs bulkSize) input w)) /\
  m_commandCount (fst (exec (fresh_parser subs bulkSize) input w))
  <= m_lineCount (fst (exec (fresh_parser subs bulkSize) input w)).
Proof.
  intros Hlen.
  destruct (exec_replay subs bulkSize input w) as [(_ & Hl & Hc & Hk) _].
  rewrite Hl, Hc, Hk.
  destruct (exec_counters bulkSize input)
    as ((_ & Hcc & Hbc & Hle & _) & Htot & Hlc).
  pose proof (total_size_nonneg (published bulkSize input)).
  rewrite Hlc, Hcc, Hbc.
  rewrite !to_int_id by (unfold INT_MIN, INT_MAX in *; lia).
  lia.
Qed.

Lemma X1_parser_counters_witness :
  Z.of_nat (length nested_input) <= INT_MAX /\
  m_lineCount (fst (exec (fresh_parser [recorder] 3) nested_input []))
  = Z.of_nat (length nested_input).
Proof.
  assert (H : Z.of_nat (length nested_input) <= INT_MAX)
    by (vm_compute; discriminate).
  split; [exact H|].
  exact (proj1 (X1_parser_counters [recorder] 3 nested_input [] H)).
Defined.

(** X2. Whatever the subscribers and the state they start from, the state
    they are left in by [exec()] is obtained by going through the published
    batches in publication order and, for each batch, calling the
    subscribers in the order in which [subscribe] registered them. *)
Theorem X2_subscribers_called_in_order {W : Type}
    (subs : list (Subscriber W)) (bulkSize : Z) (input : list string) (w : W) :
  snd (exec (fresh_parser subs bulkSize) input w)
  = fold_left
      (fun w1 batch =>
         fold_left (fun w2 subscriber => subscriber batch w2) subs w1)
      (published bulkSize input) w /\
  forall callback,
    subscribe callback (fresh_parser subs bulkSize)
    = fresh_parser (subs ++ [callback]) bulkSize /\
    forall batch (w' : W),
      notify (subs ++ [callback]) batch w'
      = callback batch (notify subs batch w').
Proof.
  split.
  - exact (proj2 (exec_replay subs bulkSize input w)).
  - intros callback. split; [reflexivity|].
    intros batch w'. unfold notify. rewrite fold_left_app. reflexivity.
Qed.

(** ** The depth counter *)

Lemma exec_line_depth bulkSize n c line :
  Z.of_nat n + 1 <= INT_MAX ->
  loop_inv bulkSize n c ->
  (state (snd (fst c)) = TopLevel /\ depthCounter (snd (fst c)) = 0 \/
   state (snd (fst c)) = InBlock /\
   1 <= depthCounter (snd (fst c)) <= Z.of_nat n) ->
  (state (snd (fst (exec_line c line))) = TopLevel /\
   depthCounter (snd (fst (exec_line c line))) = 0 \/
   state (snd (fst (exec_line c line))) = InBlock /\
   1 <= depthCounter (snd (fst (exec_line c line))) <= Z.of_nat n + 1).
Proof.
  intros Hn _ Hd. destruct c as [[p [st cmds d]] log].
  cbn [fst snd state depthCounter] in Hd.
  unfold exec_line. cbn [state commands depthCounter].
  destruct Hd as [[-> ->]|[-> Hd]].
  - destruct (negb (line =? "{")%string).
    + destruct (size_t_eq_int _ _).
      * destruct (publish _ _ _) as [[p' c'] w']. simpl. auto.
      * simpl. auto.
    + destruct (publish _ _ _) as [[p' c'] w']. simpl. right.
      split; [reflexivity|]. change (int_incr 0) with 1. lia.
  - assert (Hinc : int_incr d = d + 1).
    { unfold int_incr. apply to_int_id. unfold INT_MIN, INT_MAX in *. lia. }
    assert (Hdec : int_decr d = d - 1).
    { unfold int_decr. apply to_int_id. unfold INT_MIN, INT_MAX in *. lia. }
    destruct (negb (line =? "}")%string).
    + destruct (line =? "{")%string; simpl; right; split; auto; lia.
    + rewrite Hdec. destruct (d - 1 =? 0) eqn:E.
      * apply Z.eqb_eq in E.
        destruct (publish _ _ _) as [[p' c'] w']. simpl. auto.
      * apply Z.eqb_neq in E. simpl. right. split; auto. lia.
Qed.

(** X3. While the parser reads an input of at most [INT_MAX] lines, the
    depth counter is 0 exactly in [TopLevel], and in [InBlock] it is at
    least 1 and at most the number of lines read: it never becomes
    negative, and a ["}"] read in [TopLevel] does not move it. *)
Theorem X3_depth_counter_invariant (bulkSize : Z) (input : list string) :
  Z.of_nat (length input) <= INT_MAX ->
  state (locals_after_loop bulkSize input) = TopLevel /\
  depthCounter (locals_after_loop bulkSize input) = 0
  \/
  state (locals_after_loop bulkSize input) = InBlock /\
  1 <= depthCounter (locals_after_loop bulkSize input)
    <= Z.of_nat (length input).
Proof.
  unfold locals_after_loop.
  induction input as [|line input IH] using rev_ind; intros Hlen.
  - left. split; reflexivity.
  - rewrite length_app in *. simpl length in *.
    rewrite exec_loop_snoc.
    replace (Z.of_nat (length input + 1)) with (Z.of_nat (length input) + 1)
      in * by lia.
    apply (exec_line_depth bulkSize (length input)).
    + exact Hlen.
    + apply loop_inv_exec_loop.
    + apply IH. lia.
Qed.

Lemma X3_depth_counter_witness :
  Z.of_nat (length ["{"; "{"; "a"; "}"]%string) <= INT_MAX /\
  (state (locals_after_loop 3 ["{"; "{"; "a"; "}"]%string) = TopLevel /\
   depthCounter (locals_after_loop 3 ["{"; "{"; "a"; "}"]%string) = 0
   \/
   state (locals_after_loop 3 ["{"; "{"; "a"; "}"]%string) = InBlock /\
   1 <= depthCounter (locals_after_loop 3 ["{"; "{"; "a"; "}"]%string)
     <= Z.of_nat (length ["{"; "{"; "a"; "}"]%string)).
Proof.
  assert (H : Z.of_nat (length ["{"; "{"; "a"; "}"]%string) <= INT_MAX)
    by (vm_compute; discriminate).
  split; [exact H|].
  exact (X3_depth_counter_invariant 3 ["{"; "{"; "a"; "}"]%string H).
Defined.

(** ** Input without an opening delimiter *)

Lemma concat_flush cmds : concat (flush cmds) = cmds.
Proof. destruct cmds; simpl; [reflexivity|]. rewrite app_nil_r. reflexivity. Qed.

Lemma publish_recorder (p : Parser (list Bulk)) cmds log :
  m_subscribers p = [recorder] ->
  snd (publish p cmds log) = log ++ flush cmds /\
  snd (fst (publish p cmds log)) = [] /\
  m_subscribers (fst (fst (publish p cmds log))) = [recorder] /\
  m_bulkSize (fst (fst (publish p cmds log))) = m_bulkSize p.
Proof.
  intros Hs. destruct cmds as [|c cmds].
  - rewrite publish_empty. simpl. rewrite app_nil_r. auto.
  - rewrite publish_nonempty by discriminate. simpl.
    rewrite Hs, notify_recorder. auto.
Qed.

(** Without ["{"] lines the parser stays in [TopLevel], every batch
    published in the loop has the size the threshold test compares with,
    and the published batches followed by the pending one are the input. *)
Lemma no_open_content bulkSize input :
  Forall (fun line => String.eqb line "{" = false) input ->
  state (locals_after_loop bulkSize input) = TopLevel /\
  Forall (fun b : Bulk => Bulk_size b = to_size_t bulkSize)
         (published_in_loop bulkSize input) /\
  concat (published_in_loop bulkSize input)
  ++ commands (locals_after_loop bulkSize input) = input.
Proof.
  unfold locals_after_loop, published_in_loop.
  induction input as [|line input IH] using rev_ind; intros Hno.
  - simpl. auto.
  - apply Forall_app in Hno. destruct Hno as [Hno Hline].
    inversion Hline as [|? ? Hl _]; subst.
    specialize (IH Hno).
    pose proof (loop_inv_exec_loop bulkSize input) as Hinv.
    rewrite exec_loop_snoc.
    destruct (exec_loop (recording_parser bulkSize) input [])
      as [[p [st cmds d]] log].
    simpl in IH. destruct IH as (-> & Hall & Hcat).
    destruct Hinv as ((Hsubs & _) & Hbs & _).
    unfold exec_line. cbn [state commands depthCounter m_bulkSize].
    rewrite Hl. cbn [negb]. rewrite Hbs.
    destruct (size_t_eq_int (Bulk_size (cmds ++ [line])) bulkSize) eqn:E.
    + unfold size_t_eq_int in E. apply Z.eqb_eq in E.
      rewrite publish_nonempty by (destruct cmds; discriminate).
      cbn [fst snd state commands m_subscribers].
      rewrite Hsubs, notify_recorder.
      split; [reflexivity|]. split.
      * apply Forall_app. split; [exact Hall|].
        constructor; [exact E|constructor].
      * rewrite concat_app. simpl. rewrite !app_nil_r.
        rewrite <- Hcat, <- app_assoc. reflexivity.
    + cbn [fst snd state commands].
      split; [reflexivity|]. split; [exact Hall|].
      rewrite <- Hcat, <- app_assoc. reflexivity.
Qed.

(** X4. On an input without ["{"] lines, for any threshold (positive or
    not), the concatenation of the published batches is the input: every
    line, a ["}"] or an empty line included, is published exactly once and
    in input order. *)
Theorem X4_no_open_content_preserved (bulkSize : Z) (input : list string) :
  Forall (fun line => String.eqb line "{" = false) input ->
  concat (published bulkSize input) = input.
Proof.
  intros Hno.
  destruct (no_open_content bulkSize input Hno) as (Hst & _ & Hcat).
  rewrite published_flush, Hst, concat_app, concat_flush. exact Hcat.
Qed.

Lemma X4_no_open_content_witness :
  Forall (fun line => String.eqb line "{" = false) ["a"; "}"; ""; "b"]%string /\
  concat (published 2 ["a"; "}"; ""; "b"]%string) = ["a"; "}"; ""; "b"]%string.
Proof.
  assert (H : Forall (fun line => String.eqb line "{" = false)
                     ["a"; "}"; ""; "b"]%string)
    by (repeat constructor).
  split; [exact H|].
  exact (X4_no_open_content_preserved 2 ["a"; "}"; ""; "b"]%string H).
Defined.

(** X5. On an input without ["{"] lines and with a positive threshold, the
    published batches are the input cut into consecutive pieces of exactly
    [bulkSize] lines, followed, when the number of lines is no multiple of
    [bulkSize], by one last batch with the remaining lines. *)
Theorem X5_positive_threshold_chunks (bulkSize : Z) (input : list string) :
  0 < bulkSize <= INT_MAX ->
  Forall (fun line => String.eqb line "{" = false) input ->
  exists full last,
    published bulkSize input = full ++ flush last /\
    Forall (fun b : Bulk => Bulk_size b = bulkSize) full /\
    Bulk_size last = Z.of_nat (length input) mod bulkSize /\
    concat full ++ last = input.
Proof.
  intros Hb Hno.
  assert (Hb64 : 0 < bulkSize < 2 ^ 64) by (unfold INT_MAX in Hb; lia).
  destruct (no_open_content bulkSize input Hno) as (Hst & Hall & Hcat).
  destruct (no_open_loop bulkSize input Hb64 Hno) as (_ & _ & Hsz).
  exists (published_in_loop bulkSize input),
         (commands (locals_after_loop bulkSize input)).
  rewrite published_flush, Hst.
  split; [reflexivity|]. split; [|split; assumption].
  rewrite to_size_t_id in Hall by lia. exact Hall.
Qed.

Lemma X5_positive_threshold_witness :
  0 < 3 <= INT_MAX /\
  Forall (fun line => String.eqb line "{" = false) five_lines /\
  exists full last,
    published 3 five_lines = full ++ flush last /\
    Forall (fun b : Bulk => Bulk_size b = 3) full /\
    Bulk_size last = Z.of_nat (length five_lines) mod 3 /\
    concat full ++ last = five_lines.
Proof.
  assert (H1 : 0 < 3 <= INT_MAX) by (unfold INT_MAX; lia).
  assert (H2 : Forall (fun line => String.eqb line "{" = false) five_lines)
    by (repeat constructor).
  split; [exact H1|]. split; [exact H2|].
  exact (X5_positive_threshold_chunks 3 five_lines H1 H2).
Defined.

(** X6. With a threshold that is zero or negative, an input without ["{"]
    lines (non-empty, at most [INT_MAX] lines) is published as one single
    batch holding the whole input, at end of input. *)
Theorem X6_nonpositive_threshold_single_batch
    (bulkSize : Z) (input : list string) :
  INT_MIN <= bulkSize <= 0 ->
  Z.of_nat (length input) <= INT_MAX ->
  Forall (fun line => String.eqb line "{" = false) input ->
  input <> [] ->
  published_in_loop bulkSize input = [] /\
  published bulkSize input = [input].
Proof.
  intros Hb Hlen Hno Hne.
  assert (Hloop : published_in_loop bulkSize input = [] /\
                  locals_after_loop bulkSize input = mkLocals TopLevel input 0).
  { clear Hne. unfold published_in_loop, locals_after_loop.
    induction input as [|line input IH] using rev_ind.
    - split; reflexivity.
    - apply Forall_app in Hno. destruct Hno as [Hno Hline].
      inversion Hline as [|? ? Hl _]; subst.
      rewrite length_app in Hlen. simpl length in Hlen.
      destruct (IH ltac:(lia) Hno) as [Hlog Hloc].
      pose proof (loop_inv_exec_loop bulkSize input) as Hinv.
      rewrite exec_loop_snoc.
      destruct (exec_loop (recording_parser bulkSize) input [])
        as [[p l] log].
      simpl in Hlog, Hloc. subst l log.
      destruct Hinv as (_ & Hbs & _).
      unfold exec_line. cbn [state commands depthCounter m_bulkSize].
      rewrite Hl. cbn [negb]. rewrite Hbs.
      rewrite threshold_test_fails; [split; reflexivity|exact Hb|].
      rewrite Bulk_size_app. unfold Bulk_size. lia. }
  destruct Hloop as [Hlog Hloc]. split; [exact Hlog|].
  rewrite published_flush, Hlog, Hloc. simpl.
  destruct input; [contradiction|reflexivity].
Qed.

Lemma X6_nonpositive_threshold_witness :
  INT_MIN <= -1 <= 0 /\
  published (-1) five_lines = [five_lines].
Proof.
  assert (H1 : INT_MIN <= -1 <= 0) by (unfold INT_MIN; lia).
  split; [exact H1|].
  refine (proj2 (X6_nonpositive_threshold_single_batch (-1) five_lines H1
                   _ _ _)).
  - vm_compute. discriminate.
  - repeat constructor.
  - discriminate.
Defined.

(** ** Blocks *)

Lemma exec_loop_app {W : Type} (p : Parser W) input1 input2 (w : W) :
  exec_loop p (input1 ++ input2) w
  = fold_left exec_line input2 (exec_loop p input1 w).
Proof. unfold exec_loop. apply fold_left_app. Qed.

(** In [TopLevel] the depth counter is 0, whatever the input. *)
Lemma top_level_depth_zero bulkSize input :
  state (locals_after_loop bulkSize input) = TopLevel ->
  depthCounter (locals_after_loop bulkSize input) = 0.
Proof.
  unfold locals_after_loop.
  induction input as [|line input IH] using rev_ind.
  - reflexivity.
  - rewrite exec_loop_snoc.
    destruct (exec_loop (recording_parser bulkSize) input [])
      as [[p [st cmds d]] log].
    simpl in IH. unfold exec_line. cbn [state commands depthCounter].
    destruct st.
    + specialize (IH eq_refl). subst d.
      destruct (negb (line =? "{")%string).
      * destruct (size_t_eq_int _ _).
        -- destruct (publish _ _ _) as [[p' c'] w']. reflexivity.
        -- reflexivity.
      * destruct (publish _ _ _) as [[p' c'] w']. simpl. discriminate.
    + destruct (negb (line =? "}")%string).
      * destruct (line =? "{")%string; simpl; discriminate.
      * destruct (int_decr d =? 0) eqn:E.
        -- apply Z.eqb_eq in E.
           destruct (publish _ _ _) as [[p' c'] w']. simpl. auto.
        -- simpl. discriminate.
Qed.

Lemma log_shift_step prefix c1 c2 line :
  log_shift prefix c1 c2 ->
  log_shift prefix (exec_line c1 line) (exec_line c2 line).
Proof.
  destruct c1 as [[p1 l1] log1], c2 as [[p2 l2] log2].
  intros (Hs1 & Hs2 & Hb & Hl & Hlog). simpl in Hs1, Hs2, Hb, Hl, Hlog.
  subst l2 log1.
  assert (Hpub : forall cmds st d,
             log_shift prefix
               (let '(p', c, w') := publish (count_line p1) cmds
                                            (prefix ++ log2) in
                (p', mkLocals st c d, w'))
               (let '(p', c, w') := publish (count_line p2) cmds log2 in
                (p', mkLocals st c d, w'))).
  { intros cmds st d.
    destruct (publish_recorder (count_line p1) cmds (prefix ++ log2) Hs1)
      as (H1 & H2 & H3 & H4).
    destruct (publish_recorder (count_line p2) cmds log2 Hs2)
      as (H5 & H6 & H7 & H8).
    destruct (publish (count_line p1) cmds (prefix ++ log2)) as [[q1 c1] w1].
    destruct (publish (count_line p2) cmds log2) as [[q2 c2] w2].
    simpl in *. subst c1 c2 w1 w2. unfold log_shift. simpl.
    rewrite <- app_assoc. conjuncts; auto; congruence. }
  assert (Hkeep : forall l,
             log_shift prefix (count_line p1, l, prefix ++ log2)
                              (count_line p2, l, log2)).
  { intros l. unfold log_shift. simpl. auto 10. }
  unfold exec_line. fold (count_line p1). fold (count_line p2).
  cbn [m_bulkSize count_line]. rewrite <- Hb.
  destruct (state l1).
  - destruct (negb (line =? "{")%string).
    + destruct (size_t_eq_int _ _); [apply Hpub|apply Hkeep].
    + apply Hpub.
  - destruct (negb (line =? "}")%string).
    + destruct (line =? "{")%string; apply Hkeep.
    + destruct (int_decr (depthCounter l1) =? 0); [apply Hpub|apply Hkeep].
Qed.

Lemma log_shift_fold prefix input c1 c2 :
  log_shift prefix c1 c2 ->
  log_shift prefix (fold_left exec_line input c1)
                   (fold_left exec_line input c2).
Proof.
  revert c1 c2. induction input as [|line input IH]; intros c1 c2 H.
  - exact H.
  - simpl. apply IH. apply log_shift_step. exact H.
Qed.

(** The content lines of a block accumulate in the pending batch. *)
Lemma in_block_body body :
  forallb (fun line => negb (is_delimiter line)) body = true ->
  forall (p : Parser (list Bulk)) acc d log,
    m_subscribers p = [recorder] ->
    exists p',
      fold_left exec_line body (p, mkLocals InBlock acc d, log)
      = (p', mkLocals InBlock (acc ++ body) d, log) /\
      m_subscribers p' = [recorder] /\
      m_bulkSize p' = m_bulkSize p.
Proof.
  induction body as [|line body IH]; intros Hno p acc d log Hs.
  - exists p. rewrite app_nil_r. auto.
  - simpl in Hno. apply andb_true_iff in Hno. destruct Hno as [Hl Hno].
    unfold is_delimiter in Hl. apply negb_true_iff, orb_false_iff in Hl.
    destruct Hl as [Hopen Hclose].
    assert (Hstep : exec_line (p, mkLocals InBlock acc d, log) line
                    = (count_line p, mkLocals InBlock (acc ++ [line]) d, log)).
    { unfold exec_line. cbn [state commands depthCounter].
      rewrite Hclose, Hopen. reflexivity. }
    destruct (IH Hno (count_line p) (acc ++ [line]) d log Hs)
      as (p' & Hrun & Hs' & Hb').
    exists p'. cbn [fold_left]. rewrite Hstep, Hrun, <- app_assoc. auto.
Qed.

(** A block read from [TopLevel]: the pending batch goes out when it
    opens, the content of the block when it closes. *)
Lemma block_run (p : Parser (list Bulk)) cmds log body :
  m_subscribers p = [recorder] ->
  forallb (fun line => negb (is_delimiter line)) body = true ->
  exists p',
    fold_left exec_line ("{"%string :: body ++ ["}"%string])
              (p, mkLocals TopLevel cmds 0, log)
    = (p', locals0, log ++ flush cmds ++ flush body) /\
    m_subscribers p' = [recorder] /\
    m_bulkSize p' = m_bulkSize p.
Proof.
  intros Hs Hno.
  assert (Hopen : forall (q : Parser (list Bulk)) c (w : list Bulk),
             exec_line (q, mkLocals TopLevel c 0, w) "{"
             = (fst (fst (publish (count_line q) c w)),
                mkLocals InBlock (snd (fst (publish (count_line q) c w))) 1,
                snd (publish (count_line q) c w))).
  { intros q c w. unfold exec_line. cbn [state commands depthCounter].
    fold (count_line q).
    destruct (publish (count_line q) c w) as [[q' c'] w']. reflexivity. }
  assert (Hclose : forall (q : Parser (list Bulk)) c (w : list Bulk),
             exec_line (q, mkLocals InBlock c 1, w) "}"
             = (fst (fst (publish (count_line q) c w)),
                mkLocals TopLevel (snd (fst (publish (count_line q) c w))) 0,
                snd (publish (count_line q) c w))).
  { intros q c w. unfold exec_line. cbn [state commands depthCounter].
    fold (count_line q).
    destruct (publish (count_line q) c w) as [[q' c'] w']. reflexivity. }
  cbn [fold_left]. rewrite Hopen.
  destruct (publish_recorder (count_line p) cmds log Hs)
    as (H1 & H2 & H3 & H4).
  rewrite H1, H2.
  destruct (in_block_body body Hno _ [] 1 (log ++ flush cmds) H3)
    as (q2 & Hrun & Hs2 & Hb2).
  rewrite fold_left_app, Hrun. cbn [fold_left app]. rewrite Hclose.
  destruct (publish_recorder (count_line q2) body (log ++ flush cmds) Hs2)
    as (H5 & H6 & H7 & H8).
  rewrite H5, H6.
  eexists. rewrite <- app_assoc. split; [reflexivity|].
  split; [exact H7|]. rewrite H8. cbn [count_line m_bulkSize].
  rewrite Hb2, H4. reflexivity.
Qed.

(** X7. A block without inner delimiters, read while the parser is in
    [TopLevel], cuts the run in three independent parts, whatever the
    threshold: what is published is what [exec] publishes on the lines
    before the block (the pending batch is flushed when the block opens),
    then the content of the block as one batch (nothing if the block is
    empty), then what [exec] publishes on the lines after the block. *)
Theorem X7_block_splits_the_run
    (bulkSize : Z) (pre body post : list string) :
  state (locals_after_loop bulkSize pre) = TopLevel ->
  forallb (fun line => negb (is_delimiter line)) body = true ->
  published bulkSize (pre ++ "{"%string :: body ++ "}"%string :: post)
  = published bulkSize pre ++ flush body ++ published bulkSize post.
Proof.
  intros Hst Hno.
  pose proof (top_level_depth_zero bulkSize pre Hst) as Hd.
  pose proof (published_flush bulkSize pre) as Hpre.
  rewrite Hst in Hpre.
  pose proof (loop_inv_exec_loop bulkSize pre) as Hinv.
  assert (Hloop :
    log_shift (published bulkSize pre ++ flush body)
      (exec_loop (recording_parser bulkSize)
                 (pre ++ "{"%string :: body ++ "}"%string :: post) [])
      (exec_loop (recording_parser bulkSize) post [])).
  { replace (pre ++ "{"%string :: body ++ "}"%string :: post)
      with (pre ++ ("{"%string :: body ++ ["}"%string]) ++ post)
      by (simpl; rewrite <- app_assoc; reflexivity).
    rewrite exec_loop_app, fold_left_app.
    unfold locals_after_loop, published_in_loop in *.
    destruct (exec_loop (recording_parser bulkSize) pre [])
      as [[p [st cmds d]] log].
    simpl in Hst, Hd, Hpre. subst st d.
    destruct Hinv as ((Hs & _) & Hb & _).
    destruct (block_run p cmds log body Hs Hno) as (p' & Hrun & Hs' & Hb').
    rewrite Hrun. unfold exec_loop at 1.
    apply log_shift_fold.
    unfold log_shift. simpl. rewrite Hpre, app_nil_r, <- app_assoc.
    split; [exact Hs'|]. split; [reflexivity|].
    split; [congruence|]. split; reflexivity. }
  rewrite (published_flush bulkSize (pre ++ _)), (published_flush bulkSize post).
  unfold locals_after_loop, published_in_loop.
  destruct Hloop as (_ & _ & _ & Hl & Hlog).
  rewrite Hl, Hlog, <- !app_assoc. reflexivity.
Qed.

Lemma X7_block_splits_witness :
  state (locals_after_loop 3 ["a"; "b"]%string) = TopLevel /\
  published 3 (["a"; "b"]%string
               ++ "{"%string :: ["c"; "d"; "e"; "f"]%string
               ++ "}"%string :: ["g"]%string)
  = published 3 ["a"; "b"]%string ++ flush ["c"; "d"; "e"; "f"]%string
    ++ published 3 ["g"]%string.
Proof.
  split; [reflexivity|].
  exact (X7_block_splits_the_run 3 ["a"; "b"]%string
           ["c"; "d"; "e"; "f"]%string ["g"]%string eq_refl eq_refl).
Defined.

(* ===================================================================== *)
(** * Further properties of the worker *)
(* ===================================================================== *)

(** X8. In every interleaving and at every moment, with or without
    [stop()]: the handler calls made so far are the first submissions, in
    submission order, and the submissions not handled yet are exactly the
    batches the thread has taken followed by the batches in [m_queue];
    nothing is handled twice, out of order, or without having been
    submitted. As long as [stop()] has not run its critical section,
    [m_running] holds and the thread has not exited. *)
Theorem X8_worker_fifo_at_all_times (s : WorkerThread.System) :
  WorkerThread.reachable s ->
  submitted (WorkerThread.worker s)
  = handled (WorkerThread.worker s)
    ++ WorkerThread.local_queue_of (thread (WorkerThread.worker s))
    ++ m_queue (WorkerThread.worker s) /\
  (WorkerThread.stopper s = WorkerThread.NotCalled \/
   WorkerThread.stopper s = WorkerThread.Called ->
   m_running (WorkerThread.worker s) = true /\
   thread (WorkerThread.worker s) <> Exited).
Proof.
  intros Hreach.
  pose proof (WorkerThreadFacts.inv_reachable s Hreach)
    as (I1 & _ & _ & I3' & I4 & _).
  split; [exact I1|].
  intros Hst. specialize (I3' Hst). split; [exact I3'|].
  intros Hpc. destruct (I4 Hpc) as [Hfalse _]. congruence.
Qed.

Lemma X8_worker_fifo_witness :
  WorkerThread.reachable busy_state /\
  submitted (WorkerThread.worker busy_state)
  = handled (WorkerThread.worker busy_state)
    ++ WorkerThread.local_queue_of (thread (WorkerThread.worker busy_state))
    ++ m_queue (WorkerThread.worker busy_state).
Proof.
  assert (H : WorkerThread.reachable busy_state)
    by (exists busy_schedule; reflexivity).
  split; [exact H|].
  exact (proj1 (X8_worker_fifo_at_all_times busy_state H)).
Defined.

(** X9. From any reachable state in which [stop()] has not been called,
    if the owner calls [stop()] and nobody submits meanwhile, the call
    returns: the thread finishes the queue it had taken, drains [m_queue]
    and exits, and then every batch submitted so far has been handled, in
    order, and the queue is empty. *)
Theorem X9_stop_drains_and_returns (s : WorkerThread.System) :
  WorkerThread.reachable s ->
  WorkerThread.stopper s = WorkerThread.NotCalled ->
  exists s',
    WorkerThread.run (WorkerThread.stop_schedule s) s = Some s' /\
    WorkerThread.stopper s' = WorkerThread.Returned /\
    thread (WorkerThread.worker s') = Exited /\
    m_running (WorkerThread.worker s') = false /\
    handled (WorkerThread.worker s') = submitted (WorkerThread.worker s) /\
    submitted (WorkerThread.worker s') = submitted (WorkerThread.worker s) /\
    m_queue (WorkerThread.worker s') = [] /\
    WorkerThread.worker s' = Worker_stop (WorkerThread.worker s).
Proof.
  intros Hreach Hst.
  destruct (WorkerThreadFacts.stop_returns s Hreach Hst)
    as (s' & Hrun & Hret & Hwk).
  pose proof (WorkerThreadFacts.inv_reachable s Hreach)
    as (I1 & _ & _ & I3' & I4 & _).
  assert (Hr : m_running (WorkerThread.worker s) = true) by auto.
  exists s'. split; [exact Hrun|]. split; [exact Hret|].
  rewrite Hwk. unfold Worker_stop. rewrite Hr. cbn [negb].
  destruct (WorkerThread.worker s) as [q r pc h sub].
  simpl in I1, I4, Hr. subst r.
  destruct pc as [|l|]; simpl in *.
  - conjuncts; auto.
  - conjuncts; auto.
  - destruct (I4 eq_refl) as [Hfalse _]. discriminate.
Qed.

Lemma X9_stop_drains_witness :
  WorkerThread.reachable busy_state /\
  WorkerThread.stopper busy_state = WorkerThread.NotCalled /\
  exists s',
    WorkerThread.run (WorkerThread.stop_schedule busy_state) busy_state
    = Some s' /\
    handled (WorkerThread.worker s') = [["a"]; ["b"]; ["c"]]%string.
Proof.
  assert (H : WorkerThread.reachable busy_state)
    by (exists busy_schedule; reflexivity).
  split; [exact H|]. split; [reflexivity|].
  destruct (X9_stop_drains_and_returns busy_state H eq_refl)
    as (s' & Hrun & _ & _ & _ & Hh & _).
  exists s'. split; [exact Hrun|exact Hh].
Defined.

(** X10. Once the worker thread has exited, nothing is handled any more:
    whatever happens next, [handled] stays as it is and every later
    [push_back] only lengthens [m_queue]. A batch submitted after the
    final drain is accepted and never processed. *)
Theorem X10_no_handling_after_exit
    (s s' : WorkerThread.System) (schedule : list WorkerThread.Action) :
  thread (WorkerThread.worker s) = Exited ->
  WorkerThread.run schedule s = Some s' ->
  thread (WorkerThread.worker s') = Exited /\
  handled (WorkerThread.worker s') = handled (WorkerThread.worker s) /\
  m_queue (WorkerThread.worker s')
  = m_queue (WorkerThread.worker s) ++ pushed schedule /\
  submitted (WorkerThread.worker s')
  = submitted (WorkerThread.worker s) ++ pushed schedule.
Proof.
  revert s. induction schedule as [|a schedule IH]; intros s Hpc Hrun.
  - simpl in Hrun. injection Hrun as <-. simpl. rewrite !app_nil_r. auto.
  - simpl in Hrun.
    destruct (WorkerThread.step a s) as [s1|] eqn:Hstep; [|discriminate].
    destruct s as [[q r pc h sub] st bs]. simpl in Hpc. subst pc.
    destruct a; simpl in Hstep.
    + injection Hstep as <-.
      apply IH in Hrun; [|reflexivity].
      destruct Hrun as (H1 & H2 & H3 & H4). simpl in *.
      rewrite H3, H4, <- !app_assoc. auto.
    + destruct st; try discriminate. injection Hstep as <-.
      apply IH in Hrun; [exact Hrun|reflexivity].
    + destruct st; try discriminate.
      destruct r; simpl in Hstep; injection Hstep as <-;
        (apply IH in Hrun; [exact Hrun|reflexivity]).
    + destruct st; try discriminate. injection Hstep as <-.
      apply IH in Hrun; [exact Hrun|reflexivity].
    + discriminate.
    + discriminate.
Qed.

Lemma X10_no_handling_after_exit_witness :
  thread (WorkerThread.worker racing_state) = Exited /\
  exists s',
    WorkerThread.run [WorkerThread.Push ["late"%string]] racing_state
    = Some s' /\
    handled (WorkerThread.worker s')
    = handled (WorkerThread.worker racing_state).
Proof.
  split; [reflexivity|]. eexists. split; [reflexivity|].
  exact (proj1 (proj2 (X10_no_handling_after_exit racing_state _
                         [WorkerThread.Push ["late"%string]]
                         eq_refl eq_refl))).
Defined.

(* ===================================================================== *)
(** * Further properties of the sinks *)
(* ===================================================================== *)

(** ** The statistics maps *)

Lemma calcStats_same (k : nat) b st :
  IBulker.m_blockCount (IBulker.calcStats k b st) !! k
  = Some (int_incr (default 0 (IBulker.m_blockCount st !! k))) /\
  IBulker.m_commandCount (IBulker.calcStats k b st) !! k
  = Some (int_add_size_t (default 0 (IBulker.m_commandCount st !! k))
                         (Bulk_size b)).
Proof.
  unfold IBulker.calcStats, IBulker.initStats, WorkerId. simpl.
  rewrite !lookup_insert_eq. split.
  - destruct (IBulker.m_blockCount st !! k) eqn:E.
    + rewrite E. reflexivity.
    + rewrite lookup_insert_eq. reflexivity.
  - destruct (IBulker.m_commandCount st !! k) eqn:E.
    + rewrite E. reflexivity.
    + rewrite lookup_insert_eq. reflexivity.
Qed.

Lemma calcStats_other (k j : nat) b st :
  k <> j ->
  IBulker.m_blockCount (IBulker.calcStats k b st) !! j
  = IBulker.m_blockCount st !! j /\
  IBulker.m_commandCount (IBulker.calcStats k b st) !! j
  = IBulker.m_commandCount st !! j.
Proof.
  intros Hne. unfold IBulker.calcStats, IBulker.initStats, WorkerId. simpl.
  rewrite !lookup_insert_ne by exact Hne. split.
  - destruct (IBulker.m_blockCount st !! k); [reflexivity|].
    apply lookup_insert_ne. exact Hne.
  - destruct (IBulker.m_commandCount st !! k); [reflexivity|].
    apply lookup_insert_ne. exact Hne.
Qed.

Lemma block_entry_snoc l b :
  block_entry (l ++ [b]) = Some (int_incr (default 0 (block_entry l))).
Proof.
  unfold block_entry, int_incr.
  destruct l as [|x l]; [reflexivity|].
  cbn [app from_option id]. f_equal. rewrite to_int_to_int_add. f_equal.
  simpl length. rewrite length_app. simpl. lia.
Qed.

Lemma command_entry_snoc l b :
  command_entry (l ++ [b])
  = Some (int_add_size_t (default 0 (command_entry l)) (Bulk_size b)).
Proof.
  unfold command_entry. rewrite int_add_size_t_spec.
  destruct l as [|x l].
  - simpl. f_equal. f_equal. lia.
  - cbn [app from_option id]. f_equal. rewrite to_int_to_int_add. f_equal.
    change (x :: l ++ [b]) with ((x :: l) ++ [b]).
    apply total_size_app.
Qed.

(** Recording a batch for [k] moves the entries of [k] as one more
    received batch does, and no other entry. *)
Lemma calcStats_entries (k : nat) b st (received : nat -> list Bulk) :
  (forall j, IBulker.m_blockCount st !! j = block_entry (received j) /\
             IBulker.m_commandCount st !! j = command_entry (received j)) ->
  forall j,
    IBulker.m_blockCount (IBulker.calcStats k b st) !! j
    = block_entry (received j ++ (if Nat.eqb k j then [b] else [])) /\
    IBulker.m_commandCount (IBulker.calcStats k b st) !! j
    = command_entry (received j ++ (if Nat.eqb k j then [b] else [])).
Proof.
  intros H j. destruct (Nat.eqb k j) eqn:E.
  - apply Nat.eqb_eq in E. subst j.
    destruct (calcStats_same k b st) as [-> ->].
    destruct (H k) as [-> ->].
    rewrite block_entry_snoc, command_entry_snoc. auto.
  - apply Nat.eqb_neq in E.
    destruct (calcStats_other k j b st E) as [-> ->].
    rewrite app_nil_r. apply H.
Qed.

(** ** The screen sink *)

Lemma screen_pushes batches :
  ScreenWritter.m_worker
    (ScreenWritter_push_back_all batches ScreenWritter.new)
  = mkWorker batches true Waiting [] batches /\
  forall j,
    IBulker.m_blockCount
      (ScreenWritter.stats
         (ScreenWritter_push_back_all batches ScreenWritter.new)) !! j
    = block_entry (if Nat.eqb ScreenWritter.the_worker j then batches else [])
    /\
    IBulker.m_commandCount
      (ScreenWritter.stats
         (ScreenWritter_push_back_all batches ScreenWritter.new)) !! j
    = command_entry (if Nat.eqb ScreenWritter.the_worker j then batches
                     else []).
Proof.
  unfold ScreenWritter_push_back_all.
  induction batches as [|b batches IH] using rev_ind.
  - split; [reflexivity|]. intros j.
    destruct (Nat.eqb ScreenWritter.the_worker j); split; reflexivity.
  - rewrite fold_left_app. cbn [fold_left].
    destruct IH as [Hwk Hst].
    set (s := fold_left (fun s' b0 => ScreenWritter.push_back b0 s')
                        batches ScreenWritter.new) in *.
    unfold ScreenWritter.push_back.
    cbn [ScreenWritter.m_worker ScreenWritter.stats].
    split.
    + rewrite Hwk. reflexivity.
    + intros j.
      pose proof (calcStats_entries ScreenWritter.the_worker b
                    (ScreenWritter.stats s)
                    (fun j => if Nat.eqb ScreenWritter.the_worker j
                              then batches else []) Hst j) as H.
      cbv beta in H.
      destruct (Nat.eqb ScreenWritter.the_worker j); exact H.
Qed.

(** The entries of the screen sink after a non-empty sequence of batches. *)
Lemma screen_entries (batches : list Bulk) :
  batches <> [] ->
  Z.of_nat (length batches) <= INT_MAX ->
  total_size batches <= INT_MAX ->
  IBulker.m_blockCount
    (ScreenWritter.stats
       (ScreenWritter_push_back_all batches ScreenWritter.new))
    !! ScreenWritter.the_worker = Some (Z.of_nat (length batches)) /\
  IBulker.m_commandCount
    (ScreenWritter.stats
       (ScreenWritter_push_back_all batches ScreenWritter.new))
    !! ScreenWritter.the_worker = Some (total_size batches).
Proof.
  intros Hne Hlen Htot. unfold WorkerId in *.
  destruct (screen_pushes batches) as [_ Hst].
  pose proof (total_size_nonneg batches) as Hnn.
  destruct (Hst ScreenWritter.the_worker) as [Hb Hc].
  rewrite Hb, Hc. simpl Nat.eqb. cbv iota.
  unfold block_entry, command_entry.
  destruct batches as [|b0 rest]; [contradiction|].
  rewrite !to_int_id by (unfold INT_MIN, INT_MAX in *; lia).
  split; reflexivity.
Qed.

(** X11. After the screen sink has been handed a non-empty sequence of
    batches (at most [INT_MAX] batches and commands), each of its two maps,
    [m_blockCount] and [m_commandCount], holds exactly one entry, for its
    worker: the number of batches and the total number of commands handed
    over, and nothing under any other key; the worker has been given the
    batches in order, and after [stop()] its handler has been called on all
    of them, in order, and its queue is empty. *)
Theorem X11_screen_sink_statistics (batches : list Bulk) :
  batches <> [] ->
  Z.of_nat (length batches) <= INT_MAX ->
  total_size batches <= INT_MAX ->
  IBulker.m_blockCount
    (ScreenWritter.stats
       (ScreenWritter_push_back_all batches ScreenWritter.new))
    !! ScreenWritter.the_worker = Some (Z.of_nat (length batches)) /\
  IBulker.m_commandCount
    (ScreenWritter.stats
       (ScreenWritter_push_back_all batches ScreenWritter.new))
    !! ScreenWritter.the_worker = Some (total_size batches) /\
  (forall j, j <> ScreenWritter.the_worker ->
     IBulker.m_blockCount
       (ScreenWritter.stats
          (ScreenWritter_push_back_all batches ScreenWritter.new)) !! j
     = None /\
     IBulker.m_commandCount
       (ScreenWritter.stats
          (ScreenWritter_push_back_all batches ScreenWritter.new)) !! j
     = None) /\
  submitted (ScreenWritter.m_worker
               (ScreenWritter_push_back_all batches ScreenWritter.new))
  = batches /\
  handled (ScreenWritter.m_worker
             (ScreenWritter.stop
                (ScreenWritter_push_back_all batches ScreenWritter.new)))
  = batches /\
  m_queue (ScreenWritter.m_worker
             (ScreenWritter.stop
                (ScreenWritter_push_back_all batches ScreenWritter.new)))
  = [].
Proof.
  intros Hne Hlen Htot. unfold WorkerId in *.
  destruct (screen_pushes batches) as [Hwk Hst].
  pose proof (total_size_nonneg batches) as Hnn.
  destruct (Hst ScreenWritter.the_worker) as [Hb Hc].
  rewrite Hb, Hc. simpl Nat.eqb. cbv iota.
  unfold block_entry, command_entry.
  destruct batches as [|b0 rest]; [contradiction|].
  rewrite !to_int_id by (unfold INT_MIN, INT_MAX in *; lia).
  split; [reflexivity|]. split; [reflexivity|]. split.
  - intros j Hj. destruct (Hst j) as [Hbj Hcj]. rewrite Hbj, Hcj.
    destruct (Nat.eqb ScreenWritter.the_worker j) eqn:E;
      [|split; reflexivity].
    apply Nat.eqb_eq in E. congruence.
  - unfold ScreenWritter.stop. cbn [ScreenWritter.m_worker].
    rewrite Hwk. unfold Worker_stop. simpl.
    split; [reflexivity|]. split; reflexivity.
Qed.

Lemma X11_screen_sink_witness :
  [["a"; "b"]; ["c"]]%string <> [] /\
  IBulker.m_commandCount
    (ScreenWritter.stats
       (ScreenWritter_push_back_all [["a"; "b"]; ["c"]]%string
                                    ScreenWritter.new))
    !! ScreenWritter.the_worker
  = Some (total_size [["a"; "b"]; ["c"]]%string).
Proof.
  split; [discriminate|].
  refine (proj1 (proj2 (X11_screen_sink_statistics
                          [["a"; "b"]; ["c"]]%string _ _ _))).
  - discriminate.
  - vm_compute. discriminate.
  - vm_compute. discriminate.
Defined.

(** ** The file sink: statistics *)

Lemma routed_from_length i N k bs :
  (length (routed_from i N k bs) <= length bs)%nat.
Proof.
  revert i. induction bs as [|b bs IH]; intros i; simpl; [lia|].
  specialize (IH (S i)). destruct (Nat.eqb (i mod N)%nat k); simpl; lia.
Qed.

Lemma routed_from_total_size i N k bs :
  total_size (routed_from i N k bs) <= total_size bs.
Proof.
  revert i. induction bs as [|b bs IH]; intros i; simpl; [lia|].
  specialize (IH (S i)). pose proof (Bulk_size_nonneg b).
  destruct (Nat.eqb (i mod N)%nat k); simpl; lia.
Qed.

Lemma push_back_stats b f f' :
  0 <= FileWriter.m_roundRobin f < Z.of_nat (length (FileWriter.m_workers f)) ->
  Z.of_nat (length (FileWriter.m_workers f)) <= INT_MAX ->
  FileWriter.push_back b f = Some f' ->
  FileWriter.stats f'
  = IBulker.calcStats (Z.to_nat (FileWriter.m_roundRobin f)) b
                      (FileWriter.stats f).
Proof.
  intros Hrr Hmax. unfold FileWriter.push_back.
  assert (Hat : FileWriter.at_index (FileWriter.m_roundRobin f)
                = Z.to_nat (FileWriter.m_roundRobin f)).
  { unfold FileWriter.at_index. rewrite to_size_t_id; [reflexivity|].
    unfold INT_MAX in Hmax. lia. }
  rewrite Hat.
  destruct (FileWriter.m_workers f !! Z.to_nat (FileWriter.m_roundRobin f));
    [|discriminate].
  intros H. injection H as <-. reflexivity.
Qed.

Lemma file_pushes_stats wrkCount bs :
  0 < wrkCount <= INT_MAX ->
  exists f,
    FileWriter.push_back_all bs (FileWriter.new wrkCount) = Some f /\
    forall k : nat,
      IBulker.m_blockCount (FileWriter.stats f) !! k
      = block_entry (FileWriter.received f k) /\
      IBulker.m_commandCount (FileWriter.stats f) !! k
      = command_entry (FileWriter.received f k).
Proof.
  intros Hw.
  induction bs as [|b bs IH] using rev_ind.
  - exists (FileWriter.new wrkCount). split; [reflexivity|].
    intros k.
    destruct (push_back_all_new wrkCount [] Hw)
      as (f0 & Hall & _ & _ & _ & Hrec).
    simpl in Hall. injection Hall as <-. rewrite Hrec. simpl.
    split; reflexivity.
  - destruct IH as (f & Hall & Hent).
    destruct (push_back_all_new wrkCount bs Hw)
      as (f2 & Hall2 & Hlen & Hrr & _ & _).
    rewrite Hall in Hall2. injection Hall2 as <-.
    assert (HN : wrkCount = Z.of_nat (Z.to_nat wrkCount)) by lia.
    assert (Hrange : 0 <= FileWriter.m_roundRobin f
                     < Z.of_nat (length (FileWriter.m_workers f))).
    { rewrite Hrr, Hlen, <- HN. apply Z.mod_pos_bound. lia. }
    assert (Hmax : Z.of_nat (length (FileWriter.m_workers f)) <= INT_MAX).
    { rewrite Hlen. lia. }
    destruct (push_back_in_range b f Hrange Hmax)
      as (f' & Hpush & _ & _ & _ & Hrec').
    exists f'. rewrite push_back_all_snoc, Hall. split; [exact Hpush|].
    intros k. rewrite (push_back_stats b f f' Hrange Hmax Hpush), Hrec'.
    apply (calcStats_entries _ b (FileWriter.stats f)
                             (FileWriter.received f) Hent k).
Qed.

(** X12. After a sequence of batches (at most [INT_MAX] batches and
    commands) has been submitted to a file sink with a pool of [wrkCount]
    workers, the maps hold, for every worker that was handed at least one
    batch, the number of batches and the number of commands handed to that
    worker, and no entry for a worker that was handed none. *)
Theorem X12_file_sink_statistics (wrkCount : Z) (batches : list Bulk) :
  0 < wrkCount <= INT_MAX ->
  Z.of_nat (length batches) <= INT_MAX ->
  total_size batches <= INT_MAX ->
  exists f,
    FileWriter.push_back_all batches (FileWriter.new wrkCount) = Some f /\
    forall k : nat,
      FileWriter.received f k = routed_from 0 (Z.to_nat wrkCount) k batches /\
      (FileWriter.received f k = [] ->
       IBulker.m_blockCount (FileWriter.stats f) !! k = None /\
       IBulker.m_commandCount (FileWriter.stats f) !! k = None) /\
      (FileWriter.received f k <> [] ->
       IBulker.m_blockCount (FileWriter.stats f) !! k
       = Some (Z.of_nat (length (FileWriter.received f k))) /\
       IBulker.m_commandCount (FileWriter.stats f) !! k
       = Some (total_size (FileWriter.received f k))).
Proof.
  intros Hw Hlen Htot.
  destruct (file_pushes_stats wrkCount batches Hw) as (f & Hall & Hent).
  destruct (push_back_all_new wrkCount batches Hw)
    as (f2 & Hall2 & _ & _ & _ & Hrec).
  rewrite Hall in Hall2. injection Hall2 as <-.
  exists f. split; [exact Hall|]. intros k.
  destruct (Hent k) as [Hb Hc]. rewrite Hb, Hc.
  split; [apply Hrec|]. split.
  - intros ->. split; reflexivity.
  - intros Hne.
    pose proof (routed_from_length 0 (Z.to_nat wrkCount) k batches) as H1.
    pose proof (routed_from_total_size 0 (Z.to_nat wrkCount) k batches) as H2.
    rewrite <- Hrec in H1, H2.
    pose proof (total_size_nonneg (FileWriter.received f k)) as H3.
    unfold block_entry, command_entry.
    destruct (FileWriter.received f k) as [|x l] eqn:E; [contradiction|].
    rewrite !to_int_id by (unfold INT_MIN, INT_MAX in *; lia).
    split; reflexivity.
Qed.

Lemma X12_file_sink_witness :
  0 < 2 <= INT_MAX /\
  exists f,
    FileWriter.push_back_all [["a"; "b"]; ["c"]; ["d"]]%string
                             (FileWriter.new 2) = Some f /\
    FileWriter.received f 0 = [["a"; "b"]; ["d"]]%string /\
    IBulker.m_commandCount (FileWriter.stats f) !! 0%nat = Some 3.
Proof.
  assert (H1 : 0 < 2 <= INT_MAX) by (unfold INT_MAX; lia).
  split; [exact H1|].
  destruct (X12_file_sink_statistics 2 [["a"; "b"]; ["c"]; ["d"]]%string H1)
    as (f & Hall & Hk).
  - vm_compute. discriminate.
  - vm_compute. discriminate.
  - exists f. split; [exact Hall|].
    destruct (Hk 0%nat) as (Hrec & _ & Hsome).
    split; [exact Hrec|].
    rewrite (proj2 (Hsome ltac:(rewrite Hrec; discriminate))), Hrec.
    reflexivity.
Defined.

(** ** The file sink: stop *)

Lemma Worker_stop_idempotent wk : Worker_stop (Worker_stop wk) = Worker_stop wk.
Proof.
  destruct wk as [q [|] [|l|] h sub]; reflexivity.
Qed.

Lemma initStats_lookup (i k : nat) st :
  IBulker.m_blockCount (IBulker.initStats i st) !! k
  = (if decide (k = i) then Some (default 0 (IBulker.m_blockCount st !! k))
     else IBulker.m_blockCount st !! k) /\
  IBulker.m_commandCount (IBulker.initStats i st) !! k
  = (if decide (k = i) then Some (default 0 (IBulker.m_commandCount st !! k))
     else IBulker.m_commandCount st !! k).
Proof.
  unfold IBulker.initStats, WorkerId. simpl.
  destruct (decide (k = i)) as [->|Hne]; split.
  - destruct (IBulker.m_blockCount st !! i) eqn:E.
    + rewrite E. reflexivity.
    + rewrite lookup_insert_eq. reflexivity.
  - destruct (IBulker.m_commandCount st !! i) eqn:E.
    + rewrite E. reflexivity.
    + rewrite lookup_insert_eq. reflexivity.
  - destruct (IBulker.m_blockCount st !! i); [reflexivity|].
    apply lookup_insert_ne. congruence.
  - destruct (IBulker.m_commandCount st !! i); [reflexivity|].
    apply lookup_insert_ne. congruence.
Qed.

Lemma stop_loop_char (l : list nat) (f : FileWriter.t) :
  Forall (fun i => (i < length (FileWriter.m_workers f))%nat) l ->
  FileWriter.m_roundRobin (fold_left FileWriter.stop_one l f)
  = FileWriter.m_roundRobin f /\
  forall k : nat,
    FileWriter.m_workers (fold_left FileWriter.stop_one l f) !! k
    = (if decide (k ∈ l) then Worker_stop <$> (FileWriter.m_workers f !! k)
       else FileWriter.m_workers f !! k) /\
    IBulker.m_blockCount
      (FileWriter.stats (fold_left FileWriter.stop_one l f)) !! k
    = (if decide (k ∈ l)
       then Some (default 0 (IBulker.m_blockCount (FileWriter.stats f) !! k))
       else IBulker.m_blockCount (FileWriter.stats f) !! k) /\
    IBulker.m_commandCount
      (FileWriter.stats (fold_left FileWriter.stop_one l f)) !! k
    = (if decide (k ∈ l)
       then Some (default 0 (IBulker.m_commandCount (FileWriter.stats f) !! k))
       else IBulker.m_commandCount (FileWriter.stats f) !! k).
Proof.
  revert f. induction l as [|i l IH]; intros f Hl.
  - simpl. split; [reflexivity|]. intros k.
    destruct (decide (k ∈ [])) as [Hin|_]; [|auto].
    apply elem_of_nil in Hin. contradiction.
  - inversion Hl as [|? ? Hi Hl']; subst.
    destruct (lookup_lt_is_Some_2 _ _ Hi) as [wk Hwk].
    assert (Hone : FileWriter.stop_one f i
                   = FileWriter.mk (IBulker.initStats i (FileWriter.stats f))
                       (<[i := Worker_stop wk]> (FileWriter.m_workers f))
                       (FileWriter.m_roundRobin f)).
    { unfold FileWriter.stop_one. rewrite Hwk. reflexivity. }
    cbn [fold_left]. rewrite Hone.
    destruct (IH (FileWriter.mk (IBulker.initStats i (FileWriter.stats f))
                    (<[i := Worker_stop wk]> (FileWriter.m_workers f))
                    (FileWriter.m_roundRobin f))) as [Hrr Hk].
    { simpl. rewrite length_insert. exact Hl'. }
    split; [exact Hrr|]. intros k.
    destruct (Hk k) as (Hw & Hb & Hc). rewrite Hw, Hb, Hc.
    cbn [FileWriter.m_workers FileWriter.stats].
    destruct (initStats_lookup i k (FileWriter.stats f)) as [-> ->].
    destruct (decide (k = i)) as [->|Hne].
    + rewrite list_lookup_insert_eq by exact Hi. rewrite Hwk.
      destruct (decide (i ∈ l)), (decide (i ∈ i :: l)) as [|Hnot];
        simpl; rewrite ?Worker_stop_idempotent; auto;
        exfalso; apply Hnot; left.
    + rewrite list_lookup_insert_ne by congruence.
      destruct (decide (k ∈ l)) as [Hin|Hnin],
               (decide (k ∈ i :: l)) as [Hin'|Hnin']; auto.
      * exfalso. apply Hnin'. right. exact Hin.
      * exfalso. apply elem_of_cons in Hin'. destruct Hin'; auto.
Qed.

Lemma map_lookup_fmap {A B : Type} (g : A -> B) (l : list A) (k : nat) :
  map g l !! k = g <$> (l !! k).
Proof.
  revert k. induction l as [|x l IH]; intros [|k]; simpl; auto.
Qed.

(** What [FileWriter::stop] leaves. *)
Lemma FileWriter_stop_char (f : FileWriter.t) :
  FileWriter.m_workers (FileWriter.stop f)
  = map Worker_stop (FileWriter.m_workers f) /\
  FileWriter.m_roundRobin (FileWriter.stop f) = FileWriter.m_roundRobin f /\
  forall k : nat,
    IBulker.m_blockCount (FileWriter.stats (FileWriter.stop f)) !! k
    = (if decide (k < length (FileWriter.m_workers f))%nat
       then Some (default 0 (IBulker.m_blockCount (FileWriter.stats f) !! k))
       else IBulker.m_blockCount (FileWriter.stats f) !! k) /\
    IBulker.m_commandCount (FileWriter.stats (FileWriter.stop f)) !! k
    = (if decide (k < length (FileWriter.m_workers f))%nat
       then Some (default 0 (IBulker.m_commandCount (FileWriter.stats f) !! k))
       else IBulker.m_commandCount (FileWriter.stats f) !! k).
Proof.
  unfold FileWriter.stop.
  destruct (stop_loop_char (seq 0 (length (FileWriter.m_workers f))) f)
    as [Hrr Hk].
  { apply Forall_forall. intros i Hi. apply elem_of_seq in Hi. lia. }
  assert (Hdec : forall k : nat,
             (k ∈ seq 0 (length (FileWriter.m_workers f)))
             <-> (k < length (FileWriter.m_workers f))%nat).
  { intros k. rewrite elem_of_seq. lia. }
  split; [|split; [exact Hrr|]].
  - apply list_eq. intros k. destruct (Hk k) as (-> & _).
    rewrite map_lookup_fmap.
    destruct (decide (k ∈ seq 0 (length (FileWriter.m_workers f))))
      as [Hin|Hnin]; [reflexivity|].
    rewrite lookup_ge_None_2; [reflexivity|].
    rewrite Hdec in Hnin. lia.
  - intros k. destruct (Hk k) as (_ & -> & ->).
    destruct (decide (k ∈ seq 0 (length (FileWriter.m_workers f))))
      as [Hin|Hnin],
      (decide (k < length (FileWriter.m_workers f))%nat) as [Hlt|Hge];
      auto; exfalso.
    + apply Hge, Hdec, Hin.
    + apply Hnin, Hdec, Hlt.
Qed.

Lemma FileWriter_stop_length f :
  length (FileWriter.m_workers (FileWriter.stop f))
  = length (FileWriter.m_workers f).
Proof.
  destruct (FileWriter_stop_char f) as [-> _]. apply length_map.
Qed.

(** X13. [FileWriter::stop] stops every worker of the pool and nothing
    else: the workers are the same workers, each one stopped; the
    round-robin index is unchanged; no existing count is changed; a worker
    of the pool without an entry gets a zero entry in both maps, and keys
    that are not positions of the pool are left alone. *)
Theorem X13_file_sink_stop (f : FileWriter.t) :
  FileWriter.m_workers (FileWriter.stop f)
  = map Worker_stop (FileWriter.m_workers f) /\
  FileWriter.m_roundRobin (FileWriter.stop f) = FileWriter.m_roundRobin f /\
  forall k : nat,
    IBulker.m_blockCount (FileWriter.stats (FileWriter.stop f)) !! k
    = (if decide (k < length (FileWriter.m_workers f))%nat
       then Some (default 0 (IBulker.m_blockCount (FileWriter.stats f) !! k))
       else IBulker.m_blockCount (FileWriter.stats f) !! k) /\
    IBulker.m_commandCount (FileWriter.stats (FileWriter.stop f)) !! k
    = (if decide (k < length (FileWriter.m_workers f))%nat
       then Some (default 0 (IBulker.m_commandCount (FileWriter.stats f) !! k))
       else IBulker.m_commandCount (FileWriter.stats f) !! k).
Proof. apply FileWriter_stop_char. Qed.

Lemma FileWriter_ext (f1 f2 : FileWriter.t) :
  FileWriter.m_workers f1 = FileWriter.m_workers f2 ->
  FileWriter.m_roundRobin f1 = FileWriter.m_roundRobin f2 ->
  (forall k : nat,
      IBulker.m_blockCount (FileWriter.stats f1) !! k
      = IBulker.m_blockCount (FileWriter.stats f2) !! k /\
      IBulker.m_commandCount (FileWriter.stats f1) !! k
      = IBulker.m_commandCount (FileWriter.stats f2) !! k) ->
  f1 = f2.
Proof.
  destruct f1 as [[b1 c1] w1 r1], f2 as [[b2 c2] w2 r2]. simpl.
  intros -> -> H.
  assert (b1 = b2) as -> by (apply map_eq; intros k; apply H).
  assert (c1 = c2) as -> by (apply map_eq; intros k; apply H).
  reflexivity.
Qed.

(** X14. Stopping twice is stopping once: a second [stop()] on a worker
    returns at the test of [m_running] and changes nothing, and so does a
    second [stop()] on either sink; this is what happens when the
    destructors run after [main] has stopped the sinks. *)
Theorem X14_stop_is_idempotent :
  (forall wk, Worker_stop (Worker_stop wk) = Worker_stop wk) /\
  (forall s, ScreenWritter.stop (ScreenWritter.stop s) = ScreenWritter.stop s)
  /\
  (forall f, FileWriter.stop (FileWriter.stop f) = FileWriter.stop f).
Proof.
  split; [exact Worker_stop_idempotent|]. split.
  - intros s. unfold ScreenWritter.stop. simpl.
    rewrite Worker_stop_idempotent. reflexivity.
  - intros f.
    destruct (FileWriter_stop_char (FileWriter.stop f)) as (Hw2 & Hr2 & Hk2).
    destruct (FileWriter_stop_char f) as (Hw1 & Hr1 & Hk1).
    apply FileWriter_ext.
    + rewrite Hw2, Hw1, map_map. apply map_ext.
      intros wk. apply Worker_stop_idempotent.
    + exact Hr2.
    + intros k. destruct (Hk2 k) as [-> ->]. destruct (Hk1 k) as [-> ->].
      rewrite FileWriter_stop_length.
      destruct (decide (k < length (FileWriter.m_workers f))%nat);
        split; reflexivity.
Qed.

(** X15. A file sink built with a worker count that is zero or negative
    has an empty pool: its first [push_back] throws ([m_workers.at(0)] is
    out of range), so no sequence of submissions succeeds, and its
    [stop()] does nothing. *)
Theorem X15_empty_pool_throws (wrkCount : Z) (b : Bulk) (rest : list Bulk) :
  wrkCount <= 0 ->
  FileWriter.m_workers (FileWriter.new wrkCount) = [] /\
  FileWriter.push_back b (FileWriter.new wrkCount) = None /\
  FileWriter.push_back_all (b :: rest) (FileWriter.new wrkCount) = None /\
  file_subscriber b (Some (ScreenWritter.new, FileWriter.new wrkCount)) = None /\
  FileWriter.stop (FileWriter.new wrkCount) = FileWriter.new wrkCount.
Proof.
  intros Hw.
  assert (H0 : Z.to_nat wrkCount = 0%nat) by lia.
  unfold FileWriter.new, file_subscriber, FileWriter.push_back_all,
    FileWriter.push_back, FileWriter.stop.
  rewrite H0. simpl. auto.
Qed.

Lemma X15_empty_pool_witness :
  0 <= 0 /\ FileWriter.push_back ["a"%string] (FileWriter.new 0) = None.
Proof.
  split; [lia|].
  exact (proj1 (proj2 (X15_empty_pool_throws 0 ["a"%string] [] ltac:(lia)))).
Defined.

(* ===================================================================== *)
(** * The whole program *)
(* ===================================================================== *)

Lemma replay_none (subs : list (Subscriber Sinks)) log :
  Forall (fun sub => forall b, sub b None = None) subs ->
  replay subs log None = None.
Proof.
  intros Hsubs. induction log as [|b log IH]; [reflexivity|].
  unfold replay in *. cbn [fold_left].
  replace (notify subs b None) with (@None (ScreenWritter.t * FileWriter.t));
    [exact IH|].
  clear IH. unfold notify. induction Hsubs as [|sub subs Hsub _ IH];
    [reflexivity|].
  cbn [fold_left]. rewrite Hsub. exact IH.
Qed.

(** The two subscribers of [main] hand every batch to the screen sink and
    to the file sink. *)
Lemma replay_sinks log s0 f0 :
  replay [screen_subscriber; file_subscriber] log (Some (s0, f0))
  = match FileWriter.push_back_all log f0 with
    | Some f => Some (ScreenWritter_push_back_all log s0, f)
    | None => None
    end.
Proof.
  revert s0 f0. induction log as [|b log IH]; intros s0 f0.
  - reflexivity.
  - unfold replay. cbn [fold_left]. unfold notify at 2. cbn [fold_left].
    cbn [screen_subscriber file_subscriber FileWriter.push_back_all].
    destruct (FileWriter.push_back b f0) as [f1|].
    + apply IH.
    + apply replay_none. repeat constructor.
Qed.

Lemma push_back_untouched b f f' :
  FileWriter.push_back b f = Some f' ->
  Forall untouched (FileWriter.m_workers f) ->
  Forall untouched (FileWriter.m_workers f').
Proof.
  unfold FileWriter.push_back.
  destruct (FileWriter.m_workers f
              !! FileWriter.at_index (FileWriter.m_roundRobin f))
    as [wk|] eqn:E; [|discriminate].
  intros H Hall. injection H as <-. cbn [FileWriter.m_workers].
  apply Forall_insert; [exact Hall|].
  assert (Hwk : untouched wk).
  { eapply Forall_lookup_1; eassumption. }
  unfold untouched in *. rewrite Hwk. reflexivity.
Qed.

Lemma push_back_all_untouched bs f f' :
  FileWriter.push_back_all bs f = Some f' ->
  Forall untouched (FileWriter.m_workers f) ->
  Forall untouched (FileWriter.m_workers f').
Proof.
  revert f. induction bs as [|b bs IH]; intros f Hall Hf.
  - simpl in Hall. injection Hall as <-. exact Hf.
  - simpl in Hall. destruct (FileWriter.push_back b f) as [f1|] eqn:E;
      [|discriminate].
    apply (IH f1 Hall). eapply push_back_untouched; eassumption.
Qed.

Lemma Worker_stop_untouched wk :
  untouched wk ->
  Worker_stop wk = mkWorker [] false Exited (submitted wk) (submitted wk).
Proof. intros H. rewrite H. reflexivity. Qed.

(** X16. A run of [main], on any input and with any threshold argument:
    no subscriber throws; when the statistics are printed the screen
    worker's handler has been called on every published batch, in
    publication order; the two file workers' handlers have been called on
    the published batches of even rank and of odd rank respectively, in
    order; every queue is empty and every worker thread has exited. *)
Theorem X16_main_delivers_every_batch (arg : option Z) (input : list string) :
  exists parser screenWritter fileWriter,
    main arg input = Some (parser, screenWritter, fileWriter) /\
    same_counters parser
      (parser_after (match arg with Some n => to_int n | None => 5 end) input)
    /\
    ScreenWritter.m_worker screenWritter
    = mkWorker [] false Exited
        (published (match arg with Some n => to_int n | None => 5 end) input)
        (published (match arg with Some n => to_int n | None => 5 end) input)
    /\
    length (FileWriter.m_workers fileWriter) = 2%nat /\
    forall k wk,
      FileWriter.m_workers fileWriter !! k = Some wk ->
      wk = mkWorker [] false Exited
             (routed_from 0 2 k
                (published (match arg with Some n => to_int n | None => 5 end)
                           input))
             (routed_from 0 2 k
                (published (match arg with Some n => to_int n | None => 5 end)
                           input)).
Proof.
  unfold main.
  set (bulkCount := match arg with Some n => to_int n | None => 5 end).
  change (subscribe file_subscriber
            (subscribe screen_subscriber (Parser_new bulkCount)))
    with (fresh_parser [screen_subscriber; file_subscriber] bulkCount).
  pose proof (exec_replay [screen_subscriber; file_subscriber] bulkCount input
                (Some (ScreenWritter.new, FileWriter.new 2))) as [Hsame Hw].
  rewrite replay_sinks in Hw.
  assert (H2 : 0 < 2 <= INT_MAX) by (unfold INT_MAX; lia).
  destruct (push_back_all_new 2 (published bulkCount input) H2)
    as (f & Hall & Hlen & _ & _ & Hrec).
  rewrite Hall in Hw.
  destruct (exec _ input _) as [p w]. simpl in Hw, Hsame. subst w.
  eexists _, _, _. split; [reflexivity|].
  split; [exact Hsame|]. split; [|split].
  - unfold ScreenWritter.stop. cbn [ScreenWritter.m_worker].
    rewrite (proj1 (screen_pushes (published bulkCount input))).
    reflexivity.
  - rewrite FileWriter_stop_length. exact Hlen.
  - intros k wk Hk.
    destruct (FileWriter_stop_char f) as (Hws & _).
    rewrite Hws, map_lookup_fmap in Hk.
    destruct (FileWriter.m_workers f !! k) as [wk0|] eqn:E; [|discriminate].
    simpl in Hk. injection Hk as <-.
    assert (Hun : untouched wk0).
    { eapply Forall_lookup_1; [|exact E].
      eapply push_back_all_untouched; [exact Hall|].
      unfold FileWriter.new. cbn [FileWriter.m_workers].
      apply Forall_replicate. reflexivity. }
    rewrite (Worker_stop_untouched wk0 Hun).
    specialize (Hrec k). unfold FileWriter.received in Hrec.
    rewrite E in Hrec. rewrite Hrec. reflexivity.
Qed.

(* ===================================================================== *)
(** * Further properties of the handlers *)
(* ===================================================================== *)

Lemma append_nil (x : string) : String.append EmptyString x = x.
Proof. reflexivity. Qed.

Lemma append_cons c (s x : string) :
  String.append (String c s) x = String c (String.append s x).
Proof. reflexivity. Qed.

Lemma append_cancel_l (s x y : string) :
  String.append s x = String.append s y -> x = y.
Proof.
  induction s as [|c s IH]; rewrite ?append_nil, ?append_cons; intros H;
    [exact H|].
  injection H as H. apply IH. exact H.
Qed.

Lemma occurs_append a s r : occurs a (String.append s (String a r)) = true.
Proof.
  induction s as [|c s IH]; rewrite ?append_nil, ?append_cons; cbn [occurs].
  - rewrite Ascii.eqb_refl. reflexivity.
  - rewrite IH. apply orb_true_r.
Qed.

(** Two texts cut at the first occurrence of a separator have the same
    parts. *)
Lemma split_at_first a s1 r1 s2 r2 :
  occurs a s1 = false -> occurs a s2 = false ->
  String.append s1 (String a r1) = String.append s2 (String a r2) ->
  s1 = s2 /\ r1 = r2.
Proof.
  revert s2. induction s1 as [|c1 s1 IH]; intros [|c2 s2] H1 H2 H;
    rewrite ?append_nil, ?append_cons in H; cbn [occurs] in H1, H2.
  - injection H as H. auto.
  - injection H as Hc H. subst c2. rewrite Ascii.eqb_refl in H2. discriminate.
  - injection H as Hc H. subst c1. rewrite Ascii.eqb_refl in H1. discriminate.
  - injection H as Hc H. subst c2.
    apply orb_false_iff in H1. destruct H1 as [_ H1].
    apply orb_false_iff in H2. destruct H2 as [_ H2].
    destruct (IH s2 H1 H2 H) as [-> ->]. auto.
Qed.

(** ** The text of a batch *)

Lemma string_append_assoc (s1 s2 s3 : string) :
  String.append (String.append s1 s2) s3
  = String.append s1 (String.append s2 s3).
Proof.
  induction s1 as [|c s1 IH]; rewrite ?append_nil, ?append_cons;
    [reflexivity|].
  f_equal. exact IH.
Qed.

Lemma commands_text_cons c rest :
  String.append (commands_text (c :: rest)) endl
  = String.append c (String space (String.append (commands_text rest) endl)).
Proof. cbn [commands_text]. rewrite string_append_assoc. reflexivity. Qed.

Lemma commands_text_inj (b1 b2 : Bulk) :
  Forall (fun command => occurs space command = false) b1 ->
  Forall (fun command => occurs space command = false) b2 ->
  String.append (commands_text b1) endl = String.append (commands_text b2) endl ->
  b1 = b2.
Proof.
  intros H1. revert b2.
  induction H1 as [|c1 b1 Hc1 _ IH]; intros b2 H2 H;
    destruct H2 as [|c2 b2 Hc2 H2].
  - reflexivity.
  - exfalso. rewrite commands_text_cons in H.
    pose proof (occurs_append space c2
                  (String.append (commands_text b2) endl)) as Hocc.
    rewrite <- H in Hocc. discriminate Hocc.
  - exfalso. rewrite commands_text_cons in H.
    pose proof (occurs_append space c1
                  (String.append (commands_text b1) endl)) as Hocc.
    rewrite H in Hocc. discriminate Hocc.
  - rewrite !commands_text_cons in H.
    destruct (split_at_first _ _ _ _ _ Hc1 Hc2 H) as [-> Hrest].
    f_equal. apply IH; assumption.
Qed.

(** X17. What the handlers write for a batch determines the batch, as long
    as no command holds a space: two such batches with the same text are
    the same batch. With spaces in commands this fails: the one command
    ["a b"] and the two commands ["a"], ["b"] are written alike. *)
Theorem X17_bulk_text_determines_batch :
  (forall b1 b2 : Bulk,
      Forall (fun command => occurs space command = false) b1 ->
      Forall (fun command => occurs space command = false) b2 ->
      bulk_text b1 = bulk_text b2 -> b1 = b2) /\
  (forall tid b1 b2,
      Forall (fun command => occurs space command = false) b1 ->
      Forall (fun command => occurs space command = false) b2 ->
      ScreenWritter_write tid b1 = ScreenWritter_write tid b2 -> b1 = b2) /\
  bulk_text ["a b"%string] = bulk_text ["a"; "b"]%string.
Proof.
  assert (Hmain : forall b1 b2 : Bulk,
             Forall (fun command => occurs space command = false) b1 ->
             Forall (fun command => occurs space command = false) b2 ->
             bulk_text b1 = bulk_text b2 -> b1 = b2).
  { intros b1 b2 H1 H2 H. unfold bulk_text in H.
    apply append_cancel_l in H. apply commands_text_inj; assumption. }
  split; [exact Hmain|]. split; [|reflexivity].
  intros tid b1 b2 H1 H2 H. unfold ScreenWritter_write in H.
  apply append_cancel_l, append_cancel_l in H. apply Hmain; assumption.
Qed.

(** ** The names of the log files *)

Lemma digits_no_char a (d : Decimal.uint) :
  occurs a "0123456789"%string = false ->
  occurs a (DecimalString.NilEmpty.string_of_uint d) = false.
Proof.
  intros Ha. simpl in Ha. rewrite !orb_false_iff in Ha.
  destruct Ha as (H0 & H1 & H2 & H3 & H4 & H5 & H6 & H7 & H8 & H9 & _).
  induction d; simpl; rewrite ?IHd, ?H0, ?H1, ?H2, ?H3, ?H4, ?H5, ?H6, ?H7,
    ?H8, ?H9; reflexivity.
Qed.

Lemma to_string_no_char a z :
  occurs a "-0123456789"%string = false -> occurs a (to_string z) = false.
Proof.
  intros Ha. simpl in Ha. apply orb_false_iff in Ha. destruct Ha as [Hm Hd].
  assert (Hu : forall d,
             occurs a (DecimalString.NilZero.string_of_uint d) = false).
  { intros d. destruct d; try (apply digits_no_char; exact Hd).
    simpl. simpl in Hd. apply orb_false_iff in Hd. destruct Hd as [-> _].
    reflexivity. }
  unfold to_string. destruct (Z.to_int z); simpl.
  - apply Hu.
  - rewrite Hm. apply Hu.
Qed.

Lemma to_string_inj z1 z2 : to_string z1 = to_string z2 -> z1 = z2.
Proof.
  unfold to_string. intros H.
  apply DecimalZ.to_int_inj.
  assert (Hisi : forall z,
             DecimalString.NilZero.int_of_string
               (DecimalString.NilZero.string_of_int (Z.to_int z))
             = Some (Z.to_int z)).
  { intros z. apply DecimalString.NilZero.isi; destruct z; simpl;
      try discriminate; intros [= Hnil];
      apply (DecimalPos.Unsigned.to_uint_nonnil _ Hnil). }
  pose proof (Hisi z1) as E1. rewrite H, Hisi in E1.
  injection E1 as E1. symmetry. exact E1.
Qed.

Lemma log_path_inj cwd t1 c1 t2 c2 :
  log_path cwd t1 c1 = log_path cwd t2 c2 -> t1 = t2 /\ c1 = c2.
Proof.
  unfold log_path. intros H.
  apply append_cancel_l, append_cancel_l in H.
  change (String.append "_"%string ?x) with (String underscore x) in H.
  simpl String.append in H.
  apply split_at_first in H; try (apply to_string_no_char; reflexivity).
  destruct H as [Ht Hc]. split; [apply to_string_inj; exact Ht|].
  change ".log"%string with (String dot "log"%string) in Hc.
  apply split_at_first in Hc; try (apply to_string_no_char; reflexivity).
  apply to_string_inj, Hc.
Qed.

Lemma write_all_paths cwd calls c :
  0 <= c -> c + Z.of_nat (length calls) <= INT_MAX + 1 ->
  forall file,
    In file (FileWriter_write_all cwd calls c) ->
    exists t k, fst file = log_path cwd t k /\
                c <= k < c + Z.of_nat (length calls).
Proof.
  revert c. induction calls as [|[t b] calls IH]; intros c Hc Hlen file Hin.
  - destruct Hin.
  - cbn [FileWriter_write_all FileWriter_write] in Hin.
    simpl length in *. destruct Hin as [<-|Hin].
    + exists t, c. simpl. split; [reflexivity|lia].
    + destruct calls as [|call calls]; [destruct Hin|].
      remember (call :: calls) as rest.
      assert (Hpos : (1 <= length rest)%nat) by (subst rest; simpl; lia).
      clear Heqrest.
      assert (Hinc : int_incr c = c + 1).
      { unfold int_incr. apply to_int_id. unfold INT_MIN, INT_MAX in *. lia. }
      rewrite Hinc in Hin.
      destruct (IH (c + 1) ltac:(lia) ltac:(lia) file Hin)
        as (t' & k & Hp & Hk).
      exists t', k. split; [exact Hp|lia].
Qed.

(** X18. Successive calls of [FileWriter::write] open files with pairwise
    different paths, whatever the times at which they run and whatever the
    batches, as long as there are at most [2^31] calls (after which the
    [int] counter overflows): no log file is overwritten by a later
    batch. The path tells the time and the counter apart: two paths are
    equal only for the same time and the same counter. *)
Theorem X18_log_paths_are_distinct (cwd : string) (calls : list (Z * Bulk)) :
  Z.of_nat (length calls) <= INT_MAX + 1 ->
  NoDup (map fst (FileWriter_write_all cwd calls 0)) /\
  length (FileWriter_write_all cwd calls 0) = length calls /\
  map snd (FileWriter_write_all cwd calls 0)
  = map (fun call => bulk_text (snd call)) calls /\
  (forall t1 c1 t2 c2,
      log_path cwd t1 c1 = log_path cwd t2 c2 -> t1 = t2 /\ c1 = c2).
Proof.
  intros Hlen.
  assert (Hgen : forall c,
             0 <= c -> c + Z.of_nat (length calls) <= INT_MAX + 1 ->
             NoDup (map fst (FileWriter_write_all cwd calls c)) /\
             length (FileWriter_write_all cwd calls c) = length calls /\
             map snd (FileWriter_write_all cwd calls c)
             = map (fun call => bulk_text (snd call)) calls).
  { clear Hlen. induction calls as [|[t b] calls IH]; intros c Hc Hlen.
    - simpl. split; [constructor|]. split; reflexivity.
    - cbn [FileWriter_write_all FileWriter_write]. simpl length in *.
      destruct calls as [|call calls].
      { simpl. split; [|split; reflexivity].
        apply NoDup_cons. split; [apply not_elem_of_nil|constructor]. }
      remember (call :: calls) as rest.
      assert (Hpos : (1 <= length rest)%nat) by (subst rest; simpl; lia).
      clear Heqrest.
      assert (Hinc : int_incr c = c + 1).
      { unfold int_incr. apply to_int_id. unfold INT_MIN, INT_MAX in *. lia. }
      rewrite Hinc.
      destruct (IH (c + 1) ltac:(lia) ltac:(lia)) as (Hnd & Hl & Hs).
      cbn [map fst snd]. split; [|split].
      + apply NoDup_cons. split; [|exact Hnd].
        intros Hin. apply list_elem_of_In, in_map_iff in Hin.
        destruct Hin as (file & Hfst & Hin).
        destruct (write_all_paths cwd rest (c + 1) ltac:(lia) ltac:(lia)
                    file Hin) as (t' & k & Hp & Hk).
        rewrite Hp in Hfst. apply log_path_inj in Hfst. lia.
      + simpl. rewrite Hl. reflexivity.
      + rewrite Hs. reflexivity. }
  destruct (Hgen 0 ltac:(lia) ltac:(lia)) as (H1 & H2 & H3).
  split; [exact H1|]. split; [exact H2|]. split; [exact H3|].
  intros t1 c1 t2 c2. apply log_path_inj.
Qed.

Lemma X18_log_paths_witness :
  Z.of_nat (length [(1700000000, ["a"]); (1700000000, ["b"])]%string)
  <= INT_MAX + 1 /\
  NoDup (map fst (FileWriter_write_all "/tmp"
                    [(1700000000, ["a"]); (1700000000, ["b"])]%string 0)).
Proof.
  assert (H : Z.of_nat (length [(1700000000, ["a"]);
                                (1700000000, ["b"])]%string)
              <= INT_MAX + 1) by (vm_compute; discriminate).
  split; [exact H|].
  exact (proj1 (X18_log_paths_are_distinct "/tmp"
                  [(1700000000, ["a"]); (1700000000, ["b"])]%string H)).
Defined.

(** ** The report of [main] *)

(** What [main] holds when it prints the statistics. *)
Lemma main_result (arg : option Z) (input : list string) :
  exists parser f0,
    FileWriter.push_back_all
      (published (match arg with Some n => to_int n | None => 5 end) input)
      (FileWriter.new 2) = Some f0 /\
    main arg input
    = Some (parser,
            ScreenWritter.stop
              (ScreenWritter_push_back_all
                 (published (match arg with Some n => to_int n | None => 5 end)
                            input)
                 ScreenWritter.new),
            FileWriter.stop f0) /\
    same_counters parser
      (parser_after (match arg with Some n => to_int n | None => 5 end) input).
Proof.
  unfold main.
  set (bulkCount := match arg with Some n => to_int n | None => 5 end).
  change (subscribe file_subscriber
            (subscribe screen_subscriber (Parser_new bulkCount)))
    with (fresh_parser [screen_subscriber; file_subscriber] bulkCount).
  pose proof (exec_replay [screen_subscriber; file_subscriber] bulkCount input
                (Some (ScreenWritter.new, FileWriter.new 2))) as [Hsame Hw].
  rewrite replay_sinks in Hw.
  assert (H2 : 0 < 2 <= INT_MAX) by (unfold INT_MAX; lia).
  destruct (push_back_all_new 2 (published bulkCount input) H2)
    as (f & Hall & _).
  rewrite Hall in Hw.
  destruct (exec _ input _) as [p w]. simpl in Hw, Hsame. subst w.
  exists p, f. split; [exact Hall|]. split; [reflexivity|exact Hsame].
Qed.

Lemma routed_two_length i bs :
  (length (routed_from i 2 0 bs) + length (routed_from i 2 1 bs)
   = length bs)%nat.
Proof.
  revert i. induction bs as [|b bs IH]; intros i; [reflexivity|].
  cbn [routed_from]. specialize (IH (S i)).
  pose proof (Nat.mod_upper_bound i 2 ltac:(lia)) as Hlt.
  destruct (i mod 2)%nat as [|[|n]]; simpl; lia.
Qed.

Lemma routed_two_total_size i bs :
  total_size (routed_from i 2 0 bs) + total_size (routed_from i 2 1 bs)
  = total_size bs.
Proof.
  revert i. induction bs as [|b bs IH]; intros i; [reflexivity|].
  cbn [routed_from]. specialize (IH (S i)).
  pose proof (Nat.mod_upper_bound i 2 ltac:(lia)) as Hlt.
  destruct (i mod 2)%nat as [|[|n]]; simpl; lia.
Qed.

Lemma default_block_entry l :
  Z.of_nat (length l) <= INT_MAX ->
  default 0 (block_entry l) = Z.of_nat (length l).
Proof.
  intros H. destruct l as [|x l]; [reflexivity|].
  cbn [block_entry from_option id]. apply to_int_id.
  unfold INT_MIN, INT_MAX in *. lia.
Qed.

Lemma default_command_entry l :
  total_size l <= INT_MAX ->
  default 0 (command_entry l) = total_size l.
Proof.
  intros H. destruct l as [|x l]; [reflexivity|].
  cbn [command_entry from_option id]. apply to_int_id.
  pose proof (total_size_nonneg (x :: l)).
  unfold INT_MIN, INT_MAX in *. lia.
Qed.

(** X19. In the report [main] prints for an input of at most [INT_MAX]
    lines: the two counts of the file sink's workers add up to the
    parser's [m_blockCount], and their command counts to the parser's
    [m_commandCount]; and when at least one batch was published, the
    screen sink's count and command count for its worker are the parser's
    [m_blockCount] and [m_commandCount]. *)
Theorem X19_report_totals_agree (arg : option Z) (input : list string) :
  Z.of_nat (length input) <= INT_MAX ->
  exists parser screenWritter fileWriter blocks0 blocks1 commands0 commands1,
    main arg input = Some (parser, screenWritter, fileWriter) /\
    IBulker.m_blockCount (FileWriter.stats fileWriter) !! 0%nat
    = Some blocks0 /\
    IBulker.m_blockCount (FileWriter.stats fileWriter) !! 1%nat
    = Some blocks1 /\
    blocks0 + blocks1 = m_blockCount parser /\
    IBulker.m_commandCount (FileWriter.stats fileWriter) !! 0%nat
    = Some commands0 /\
    IBulker.m_commandCount (FileWriter.stats fileWriter) !! 1%nat
    = Some commands1 /\
    commands0 + commands1 = m_commandCount parser /\
    (published (match arg with Some n => to_int n | None => 5 end) input <> []
     ->
     IBulker.m_blockCount (ScreenWritter.stats screenWritter)
       !! ScreenWritter.the_worker = Some (m_blockCount parser) /\
     IBulker.m_commandCount (ScreenWritter.stats screenWritter)
       !! ScreenWritter.the_worker = Some (m_commandCount parser)).
Proof.
  intros Hlen. unfold WorkerId in *.
  destruct (main_result arg input) as (p & f0 & Hall & Hmain & Hsame).
  set (bulkCount := match arg with Some n => to_int n | None => 5 end) in *.
  set (log := published bulkCount input) in *.
  destruct Hsame as (_ & _ & Hc & Hk).
  destruct (exec_counters bulkCount input)
    as ((_ & Hcc & Hbc & Hle & _) & Htot & _).
  fold log in Hcc, Hbc, Hle, Htot.
  pose proof (total_size_nonneg log) as Hnn.
  rewrite to_int_id in Hcc by (unfold INT_MIN, INT_MAX in *; lia).
  rewrite to_int_id in Hbc by (unfold INT_MIN, INT_MAX in *; lia).
  rewrite <- Hc in Hcc. rewrite <- Hk in Hbc.
  assert (H2 : 0 < 2 <= INT_MAX) by (unfold INT_MAX; lia).
  destruct (file_pushes_stats 2 log H2) as (f1 & Hall1 & Hent).
  rewrite Hall in Hall1. injection Hall1 as <-.
  destruct (push_back_all_new 2 log H2) as (f2 & Hall2 & Hl2 & _ & _ & Hrec).
  rewrite Hall in Hall2. injection Hall2 as <-.
  destruct (FileWriter_stop_char f0) as (_ & _ & Hstop).
  pose proof (routed_two_length 0 log) as Hsum.
  pose proof (routed_two_total_size 0 log) as Hsumc.
  pose proof (routed_from_length 0 2 0 log) as Hl0.
  pose proof (routed_from_length 0 2 1 log) as Hl1.
  pose proof (routed_from_total_size 0 2 0 log) as Ht0.
  pose proof (routed_from_total_size 0 2 1 log) as Ht1.
  change (Z.to_nat 2) with 2%nat in Hrec, Hl2.
  exists p, (ScreenWritter.stop
               (ScreenWritter_push_back_all log ScreenWritter.new)),
         (FileWriter.stop f0),
         (Z.of_nat (length (routed_from 0 2 0 log))),
         (Z.of_nat (length (routed_from 0 2 1 log))),
         (total_size (routed_from 0 2 0 log)),
         (total_size (routed_from 0 2 1 log)).
  split; [exact Hmain|].
  destruct (Hstop 0%nat) as [Hb0 Hc0]. destruct (Hstop 1%nat) as [Hb1 Hc1].
  rewrite Hl2 in Hb0, Hc0, Hb1, Hc1.
  destruct (decide (0 < 2)%nat) as [_|Hbad]; [|lia].
  destruct (decide (1 < 2)%nat) as [_|Hbad]; [|lia].
  destruct (Hent 0%nat) as [He0 Hf0]. destruct (Hent 1%nat) as [He1 Hf1].
  rewrite He0, (Hrec 0%nat), default_block_entry in Hb0 by lia.
  rewrite He1, (Hrec 1%nat), default_block_entry in Hb1 by lia.
  rewrite Hf0, (Hrec 0%nat), default_command_entry in Hc0 by lia.
  rewrite Hf1, (Hrec 1%nat), default_command_entry in Hc1 by lia.
  split; [exact Hb0|]. split; [exact Hb1|]. split; [lia|].
  split; [exact Hc0|]. split; [exact Hc1|]. split; [lia|].
  intros Hne. rewrite ScreenWritter_stop_stats.
  destruct (screen_entries log Hne ltac:(lia) ltac:(lia)) as (Hsb & Hsc).
  rewrite Hbc, Hcc. split; [exact Hsb|exact Hsc].
Qed.

Lemma X19_report_totals_witness :
  Z.of_nat (length five_lines) <= INT_MAX /\
  exists parser screenWritter fileWriter,
    main (Some 2) five_lines = Some (parser, screenWritter, fileWriter) /\
    IBulker.m_blockCount (ScreenWritter.stats screenWritter)
      !! ScreenWritter.the_worker = Some (m_blockCount parser).
Proof.
  assert (H : Z.of_nat (length five_lines) <= INT_MAX)
    by (vm_compute; discriminate).
  split; [exact H|].
  destruct (X19_report_totals_agree (Some 2) five_lines H)
    as (p & s & f & b0 & b1 & c0 & c1 & Hmain & _ & _ & _ & _ & _ & _ & Hs).
  exists p, s, f. split; [exact Hmain|].
  apply Hs. vm_compute. discriminate.
Defined.
